(** * icp-recipe: a recipe store on a stable B-tree map

    Shallow embedding of [src/index.ts] and proofs of the properties its
    specification states.  The source file holds two revisions of the
    canister, one after the other:

    - revision A (lines 1-268): [createRecipe] draws the owner id itself,
      [updateRecipe] and [deleteRecipe] take an [ownerId] that is format
      checked, and [deleteRecipe] removes the record before it compares owners;
    - revision B (lines 270-537): the caller passes a [requesterId] that becomes
      the owner id, [getRecipeById] is an owner-only read, and [deleteRecipe]
      compares owners before it removes.

    They are embedded as the modules [RevA] and [RevB] over one data model. *)

From Stdlib Require Import Ascii String NArith.
From stdpp Require Import base option list sorting strings gmap fin_maps.

Set Default Proof Using "Type".

(** ** JavaScript strings

    A string is modelled as a [string] of 8-bit characters: the UTF-8 bytes of
    the text.  The bytes below 128 are the ASCII characters, and no byte of a
    character outside ASCII is below 128. *)

Module JS.

(** [!s] is true exactly for the empty string, so a string is truthy when it
    is not empty. *)
Definition truthy (s : string) : bool :=
  match s with
  | EmptyString => false
  | String _ _ => true
  end.

(** [a || b] on strings: [a] when it is truthy, otherwise [b]. *)
Definition or (a b : string) : string := if truthy a then a else b.

Definition isUpper (c : ascii) : bool :=
  (N_of_ascii "A" <=? N_of_ascii c)%N && (N_of_ascii c <=? N_of_ascii "Z")%N.

Definition isLower (c : ascii) : bool :=
  (N_of_ascii "a" <=? N_of_ascii c)%N && (N_of_ascii c <=? N_of_ascii "z")%N.

Definition toLowerChar (c : ascii) : ascii :=
  if isUpper c then ascii_of_N (N_of_ascii c + 32) else c.

Definition toUpperChar (c : ascii) : ascii :=
  if isLower c then ascii_of_N (N_of_ascii c - 32) else c.

(** The ASCII letters of [s] in lower case, every other character as it is. *)
Fixpoint asciiLower (s : string) : string :=
  match s with
  | EmptyString => EmptyString
  | String c s' => String (toLowerChar c) (asciiLower s')
  end.

Definition isAsciiChar (c : ascii) : bool := (N_of_ascii c <? 128)%N.

Fixpoint isAscii (s : string) : bool :=
  match s with
  | EmptyString => true
  | String c s' => isAsciiChar c && isAscii s'
  end.

(** [s.toLowerCase()] is Unicode-aware.  On a string of ASCII characters it
    lower-cases the letters [A]-[Z] and that is all.  On any other string the
    result comes from the Unicode case tables of the engine, which are not
    part of the repository: [unicodeLower] stands for the engine's
    lower-casing of such a string.  The case of an ASCII letter has no
    influence on how the engine maps the other characters, so the letters
    [A]-[Z] may be lower-cased first. *)
Definition toLowerCase (unicodeLower : string → string) (s : string) : string :=
  if isAscii s then asciiLower s else unicodeLower (asciiLower s).

(** A call either returns a value and the next state or throws; [returning f]
    is the call that never throws and returns what [f] gives. *)
Definition returning {State A : Type} (f : State → A * State)
  : State → option (A * State) :=
  λ state, Some (f state).

End JS.

(** ** Regular expressions

    The fragment of JavaScript regular expressions that [isValidUUID] uses:
    literal characters, character classes given as ranges, concatenation and
    the bounded repetition [p{n}].  The flag [i] is the ignore-case flag. *)

Module RegExp.

Inductive pattern : Type :=
| Char (c : ascii)
| Class (ranges : list (ascii * ascii))
| Seq (p q : pattern)
| Repeat (n : nat) (p : pattern).

Definition inRange (r : ascii * ascii) (x : ascii) : bool :=
  (N_of_ascii r.1 <=? N_of_ascii x)%N && (N_of_ascii x <=? N_of_ascii r.2)%N.

Definition inRanges (ranges : list (ascii * ascii)) (x : ascii) : bool :=
  existsb (λ r, inRange r x) ranges.

(** With the flag [i], a character matches a class when some member of the
    class has the same canonical (upper-case) form; the members to try are
    the character itself and its two case variants. *)
Definition classTest (i : bool) (ranges : list (ascii * ascii)) (x : ascii) : bool :=
  if i
  then inRanges ranges x || inRanges ranges (JS.toUpperChar x)
       || inRanges ranges (JS.toLowerChar x)
  else inRanges ranges x.

Definition charTest (i : bool) (c x : ascii) : bool :=
  classTest i [(c, c)] x.

(** [matchPrefix i p s] consumes a prefix of [s] that matches [p] and returns
    the rest of [s].  No pattern of the fragment has a choice to make, so
    there is at most one such prefix. *)
Fixpoint matchPrefix (i : bool) (p : pattern) (s : string) : option string :=
  match p with
  | Char c =>
      match s with
      | String x s' => if charTest i c x then Some s' else None
      | EmptyString => None
      end
  | Class ranges =>
      match s with
      | String x s' => if classTest i ranges x then Some s' else None
      | EmptyString => None
      end
  | Seq p q => matchPrefix i p s ≫= matchPrefix i q
  | Repeat n p =>
      (fix times (n : nat) (s : string) : option string :=
         match n with
         | O => Some s
         | S n' => matchPrefix i p s ≫= times n'
         end) n s
  end.

(** [/^p$/.test(s)]: the whole of [s] matches [p]. *)
Definition test (i : bool) (p : pattern) (s : string) : bool :=
  match matchPrefix i p s with
  | Some EmptyString => true
  | _ => false
  end.

(** The words a pattern denotes. *)
Inductive matches (i : bool) : pattern → string → Prop :=
| matches_Char c x :
    charTest i c x = true → matches i (Char c) (String x "")
| matches_Class ranges x :
    classTest i ranges x = true → matches i (Class ranges) (String x "")
| matches_Seq p q s t :
    matches i p s → matches i q t → matches i (Seq p q) (s +:+ t)
| matches_Repeat_O p :
    matches i (Repeat 0 p) ""
| matches_Repeat_S n p s t :
    matches i p s → matches i (Repeat n p) t →
    matches i (Repeat (S n) p) (s +:+ t).

End RegExp.

(** ** Data model *)

Module Recipe.
Record Recipe : Type := {
  id : string;
  recipeName : string;
  ownerName : string;
  ownerId : string;
  description : string;
  recipeType : string;
  videoDemonstration : string
}.
End Recipe.
Abbreviation Recipe := Recipe.Recipe.

Module RecipePayload.
Record RecipePayload : Type := {
  recipeName : string;
  recipeType : string;
  description : string;
  ownerName : string;
  videoDemonstration : string
}.
End RecipePayload.
Abbreviation RecipePayload := RecipePayload.RecipePayload.

Inductive Result (A : Type) : Type :=
| Ok (value : A)
| Err (message : string).
Arguments Ok {A} value.
Arguments Err {A} message.

Global Instance Recipe_eq_dec : EqDecision Recipe.
Proof. solve_decision. Defined.

(** ** The stable B-tree map

    [new StableBTreeMap<string, Recipe>(1, 44, 1024)] is a finite map from keys
    to records.  [values()] lists the stored records in ascending key order.
    The byte bounds on encoded keys and values are a matter of the host's
    serialization and are not part of this model. *)

Abbreviation Storage := (gmap string Recipe).

Module StableBTreeMap.

Definition get (k : string) (m : Storage) : option Recipe := m !! k.

(** [insert] also returns the record it replaced; no caller looks at it. *)
Definition insert (k : string) (v : Recipe) (m : Storage) : Storage := <[k := v]> m.

(** [remove] returns the record that was stored, if any, next to the map
    without it. *)
Definition remove (k : string) (m : Storage) : option Recipe * Storage :=
  (m !! k, delete k m).

Definition keyLe (a b : string * Recipe) : Prop := String.le a.1 b.1.

Global Instance keyLe_dec : RelDecision keyLe.
Proof. intros a b. unfold keyLe. apply _. Defined.

Definition items (m : Storage) : list (string * Recipe) :=
  merge_sort keyLe (map_to_list m).

Definition values (m : Storage) : list Recipe := (items m).*2.

End StableBTreeMap.

(** ** Revision A (lines 1-268 of [index.ts])

    Every canister method takes the contents of [recipeStorage] as an argument;
    the [$update] methods return the new contents next to their result.  The
    map operations and the string operations of the model do not throw, so the
    [catch] branches of the queries are never taken; [uuidv4()] may throw, and
    [createRecipe] catches it. *)

Module RevA.
Import StableBTreeMap.

(** [[\da-f]] *)
Definition hexClass : RegExp.pattern :=
  RegExp.Class [("0", "9"); ("a", "f")]%char.

(** [/^[\da-f]{8}-([\da-f]{4}-){3}[\da-f]{12}$/i] *)
Definition uuidPattern : RegExp.pattern :=
  RegExp.Seq (RegExp.Repeat 8 hexClass)
 (RegExp.Seq (RegExp.Char "-")
 (RegExp.Seq (RegExp.Repeat 3 (RegExp.Seq (RegExp.Repeat 4 hexClass) (RegExp.Char "-")))
             (RegExp.Repeat 12 hexClass))).

Definition isValidUUID (id : string) : bool :=
  RegExp.test true uuidPattern id.

Definition getAllRecipes (recipeStorage : Storage) : Result (list Recipe) :=
  if (length (values recipeStorage) =? 0)%nat
  then Err "There are no recipes at this moment."
  else Ok (values recipeStorage).

Definition getRecipeById (recipeId : string) (recipeStorage : Storage) : Result Recipe :=
  if negb (isValidUUID recipeId) then Err "Invalid recipe ID"
  else
    match get recipeId recipeStorage with
    | Some recipe => Ok recipe
    | None =>
        Err ("Recipe with the provided id: " +:+ recipeId +:+ " has not been found!")
    end.

Definition getRecipeByName (unicodeLower : string → string) (recipeName : string)
  (recipeStorage : Storage) : Result (list Recipe) :=
  let result :=
    filter (λ recipe : Recipe,
              JS.toLowerCase unicodeLower recipe.(Recipe.recipeName)
              = JS.toLowerCase unicodeLower recipeName)
           (values recipeStorage) in
  if (length result =? 0)%nat
  then Err "There are no recipes with such a name at this moment."
  else Ok result.

Definition getOwnersRecipesById (ownerId : string) (recipeStorage : Storage)
  : Result (list Recipe) :=
  if negb (isValidUUID ownerId) then Err "Invalid owner ID"
  else
    let result :=
      filter (λ recipe : Recipe, recipe.(Recipe.ownerId) = ownerId) (values recipeStorage) in
    if (length result =? 0)%nat
    then Err "There are no recipes available by this owner/chef."
    else Ok result.

Definition getRecipesByOwnersName (ownerName : string) (recipeStorage : Storage)
  : Result (list Recipe) :=
  let result :=
    filter (λ recipe : Recipe, recipe.(Recipe.ownerName) = ownerName) (values recipeStorage) in
  if (length result =? 0)%nat
  then Err "There are no recipes available by this owner/chef."
  else Ok result.

Definition getRecipesByType (unicodeLower : string → string) (recipeType : string)
  (recipeStorage : Storage) : Result (list Recipe) :=
  let result :=
    filter (λ recipe : Recipe,
              JS.toLowerCase unicodeLower recipe.(Recipe.recipeType)
              = JS.toLowerCase unicodeLower recipeType)
           (values recipeStorage) in
  if (length result =? 0)%nat
  then Err "There are no recipes available from this type."
  else Ok result.

Section Create.
(** [uuidv4()] of the [uuid] package draws from [crypto.getRandomValues],
    which revision A installs itself (lines 247-258).  [Rng] is the state of
    the random source; a call either returns an identifier and the next state
    or throws, as it does where no such source is installed.  The [try] block
    encloses both calls, and the [catch] answers a throw with the
    failed-to-create message. *)
Context {Rng : Type} (uuidv4 : Rng → option (string * Rng)).

Definition createRecipe (payload : RecipePayload) (recipeStorage : Storage) (rng : Rng)
  : Result Recipe * Storage * Rng :=
  if negb (JS.truthy payload.(RecipePayload.recipeType))
     || negb (JS.truthy payload.(RecipePayload.description))
     || negb (JS.truthy payload.(RecipePayload.ownerName))
     || negb (JS.truthy payload.(RecipePayload.videoDemonstration))
     || negb (JS.truthy payload.(RecipePayload.recipeName))
  then (Err "Incomplete input data!", recipeStorage, rng)
  else
    match uuidv4 rng with
    | None => (Err "Failed to create recipe!", recipeStorage, rng)
    | Some (recipeId, rng) =>
        match uuidv4 rng with
        | None => (Err "Failed to create recipe!", recipeStorage, rng)
        | Some (newOwnerId, rng) =>
            let newRecipe := {|
              Recipe.id := recipeId;
              Recipe.recipeName := payload.(RecipePayload.recipeName);
              Recipe.recipeType := payload.(RecipePayload.recipeType);
              Recipe.description := payload.(RecipePayload.description);
              Recipe.ownerName := payload.(RecipePayload.ownerName);
              Recipe.ownerId := newOwnerId;
              Recipe.videoDemonstration := payload.(RecipePayload.videoDemonstration)
            |} in
            (Ok newRecipe, insert newRecipe.(Recipe.id) newRecipe recipeStorage, rng)
        end
    end.

End Create.

Definition updateRecipe (recipeId ownerId : string) (payload : RecipePayload)
  (recipeStorage : Storage) : Result Recipe * Storage :=
  if negb (isValidUUID recipeId) || negb (isValidUUID ownerId)
  then (Err "Invalid recipe or owner ID for updating the recipe.", recipeStorage)
  else
    match get recipeId recipeStorage with
    | Some recipe =>
        if negb (String.eqb recipe.(Recipe.ownerId) ownerId)
        then (Err "Only the owner of the recipe can update this recipe!", recipeStorage)
        else
          let updatedRecipe := {|
            Recipe.id := recipe.(Recipe.id);
            Recipe.recipeName := JS.or payload.(RecipePayload.recipeName) recipe.(Recipe.recipeName);
            Recipe.recipeType := JS.or payload.(RecipePayload.recipeType) recipe.(Recipe.recipeType);
            Recipe.description := JS.or payload.(RecipePayload.description) recipe.(Recipe.description);
            Recipe.ownerName := JS.or payload.(RecipePayload.ownerName) recipe.(Recipe.ownerName);
            Recipe.ownerId := recipe.(Recipe.ownerId);
            Recipe.videoDemonstration :=
              JS.or payload.(RecipePayload.videoDemonstration) recipe.(Recipe.videoDemonstration)
          |} in
          (Ok updatedRecipe, insert recipe.(Recipe.id) updatedRecipe recipeStorage)
    | None =>
        (Err ("Failed to update recipe with id: " +:+ recipeId +:+ "!"), recipeStorage)
    end.

(** The record is removed by the call that looks it up, before the owner is
    compared. *)
Definition deleteRecipe (recipeId ownerId : string) (recipeStorage : Storage)
  : Result Recipe * Storage :=
  if negb (isValidUUID recipeId) || negb (isValidUUID ownerId)
  then (Err "Invalid recipe or owner ID for deleting an Recipe.", recipeStorage)
  else
    let '(removed, recipeStorage) := remove recipeId recipeStorage in
    match removed with
    | Some recipe =>
        if negb (String.eqb recipe.(Recipe.ownerId) ownerId)
        then (Err "Only the owner can delete the recipe!", recipeStorage)
        else (Ok recipe, recipeStorage)
    | None => (Err ("Failed to delete recipe with id: " +:+ recipeId), recipeStorage)
    end.

(** The [$update] methods as calls, and their effect on the canister state
    (the stored records and the random source). *)
Inductive Call : Type :=
| CreateRecipe (payload : RecipePayload)
| UpdateRecipe (recipeId ownerId : string) (payload : RecipePayload)
| DeleteRecipe (recipeId ownerId : string).

Definition exec {Rng : Type} (uuidv4 : Rng → option (string * Rng)) (c : Call)
  (state : Storage * Rng) : Storage * Rng :=
  match c with
  | CreateRecipe payload =>
      let '(_, recipeStorage, rng) := createRecipe uuidv4 payload state.1 state.2 in
      (recipeStorage, rng)
  | UpdateRecipe recipeId ownerId payload =>
      ((updateRecipe recipeId ownerId payload state.1).2, state.2)
  | DeleteRecipe recipeId ownerId =>
      ((deleteRecipe recipeId ownerId state.1).2, state.2)
  end.

Definition run {Rng : Type} (uuidv4 : Rng → option (string * Rng)) (calls : list Call)
  (state : Storage * Rng) : Storage * Rng :=
  foldl (λ state c, exec uuidv4 c state) state calls.

End RevA.

(** ** Revision B (lines 270-537 of [index.ts]) *)

Module RevB.
Import StableBTreeMap.

(** [[a-fA-F0-9]] *)
Definition hexClass : RegExp.pattern :=
  RegExp.Class [("a", "f"); ("A", "F"); ("0", "9")]%char.

(** [/^[a-fA-F0-9]{8}-[a-fA-F0-9]{4}-[a-fA-F0-9]{4}-[a-fA-F0-9]{4}-[a-fA-F0-9]{12}$/i] *)
Definition uuidPattern : RegExp.pattern :=
  RegExp.Seq (RegExp.Repeat 8 hexClass)
 (RegExp.Seq (RegExp.Char "-")
 (RegExp.Seq (RegExp.Repeat 4 hexClass)
 (RegExp.Seq (RegExp.Char "-")
 (RegExp.Seq (RegExp.Repeat 4 hexClass)
 (RegExp.Seq (RegExp.Char "-")
 (RegExp.Seq (RegExp.Repeat 4 hexClass)
 (RegExp.Seq (RegExp.Char "-")
             (RegExp.Repeat 12 hexClass)))))))).

Definition isValidUUID (id : string) : bool :=
  RegExp.test true uuidPattern id.

Definition getAllRecipes (recipeStorage : Storage) : Result (list Recipe) :=
  let recipes := values recipeStorage in
  if (length recipes =? 0)%nat
  then Err "There are no recipes at this moment."
  else Ok recipes.

Definition getRecipeById (recipeId requesterId : string) (recipeStorage : Storage)
  : Result Recipe :=
  if negb (isValidUUID recipeId) then Err "Invalid recipe ID"
  else
    match get recipeId recipeStorage with
    | Some recipe =>
        if negb (String.eqb recipe.(Recipe.ownerId) requesterId)
        then Err "Unauthorized to access this recipe."
        else Ok recipe
    | None =>
        Err ("Recipe with the provided id: " +:+ recipeId +:+ " has not been found!")
    end.

Definition getRecipeByName (unicodeLower : string → string) (recipeName : string)
  (recipeStorage : Storage) : Result (list Recipe) :=
  let result :=
    filter (λ recipe : Recipe,
              JS.toLowerCase unicodeLower recipe.(Recipe.recipeName)
              = JS.toLowerCase unicodeLower recipeName)
           (values recipeStorage) in
  if (length result =? 0)%nat
  then Err ("There are no recipes with the name " +:+ recipeName +:+ " at this moment.")
  else Ok result.

Definition getOwnersRecipesById (ownerId requesterId : string) (recipeStorage : Storage)
  : Result (list Recipe) :=
  if negb (isValidUUID ownerId) then Err "Invalid owner ID"
  else
    let result :=
      filter (λ recipe : Recipe, recipe.(Recipe.ownerId) = ownerId)
             (values recipeStorage) in
    if (length result =? 0)%nat
    then Err "There are no recipes available by this owner/chef."
    else Ok result.

Definition getRecipesByOwnersName (ownerName requesterId : string)
  (recipeStorage : Storage) : Result (list Recipe) :=
  let result :=
    filter (λ recipe : Recipe, recipe.(Recipe.ownerName) = ownerName)
           (values recipeStorage) in
  if (length result =? 0)%nat
  then Err "There are no recipes available by this owner/chef."
  else Ok result.

Definition getRecipesByType (unicodeLower : string → string) (recipeType : string)
  (recipeStorage : Storage) : Result (list Recipe) :=
  let result :=
    filter (λ recipe : Recipe,
              JS.toLowerCase unicodeLower recipe.(Recipe.recipeType)
              = JS.toLowerCase unicodeLower recipeType)
           (values recipeStorage) in
  if (length result =? 0)%nat
  then Err ("There are no recipes available from type " +:+ recipeType +:+ ".")
  else Ok result.

Section Create.
(** Revision B installs no [crypto.getRandomValues] of its own; whether
    [uuidv4()] returns or throws is up to the host. *)
Context {Rng : Type} (uuidv4 : Rng → option (string * Rng)).

Definition createRecipe (requesterId : string) (payload : RecipePayload)
  (recipeStorage : Storage) (rng : Rng) : Result Recipe * Storage * Rng :=
  if negb (JS.truthy payload.(RecipePayload.recipeType))
     || negb (JS.truthy payload.(RecipePayload.description))
     || negb (JS.truthy payload.(RecipePayload.ownerName))
     || negb (JS.truthy payload.(RecipePayload.videoDemonstration))
     || negb (JS.truthy payload.(RecipePayload.recipeName))
  then (Err "Incomplete input data!", recipeStorage, rng)
  else
    match uuidv4 rng with
    | None => (Err "Failed to create recipe!", recipeStorage, rng)
    | Some (recipeId, rng) =>
        let newRecipe := {|
          Recipe.id := recipeId;
          Recipe.recipeName := payload.(RecipePayload.recipeName);
          Recipe.recipeType := payload.(RecipePayload.recipeType);
          Recipe.description := payload.(RecipePayload.description);
          Recipe.ownerName := payload.(RecipePayload.ownerName);
          Recipe.ownerId := requesterId;
          Recipe.videoDemonstration := payload.(RecipePayload.videoDemonstration)
        |} in
        (Ok newRecipe, insert newRecipe.(Recipe.id) newRecipe recipeStorage, rng)
    end.

End Create.

Definition updateRecipe (recipeId requesterId : string) (payload : RecipePayload)
  (recipeStorage : Storage) : Result Recipe * Storage :=
  if negb (isValidUUID recipeId)
  then (Err "Invalid recipe ID for updating the recipe.", recipeStorage)
  else
    match get recipeId recipeStorage with
    | Some recipe =>
        if negb (String.eqb recipe.(Recipe.ownerId) requesterId)
        then (Err "Only the owner of the recipe can update this recipe!", recipeStorage)
        else
          let updatedRecipe := {|
            Recipe.id := recipe.(Recipe.id);
            Recipe.recipeName :=
              JS.or payload.(RecipePayload.recipeName) recipe.(Recipe.recipeName);
            Recipe.recipeType :=
              JS.or payload.(RecipePayload.recipeType) recipe.(Recipe.recipeType);
            Recipe.description :=
              JS.or payload.(RecipePayload.description) recipe.(Recipe.description);
            Recipe.ownerName :=
              JS.or payload.(RecipePayload.ownerName) recipe.(Recipe.ownerName);
            Recipe.ownerId := recipe.(Recipe.ownerId);
            Recipe.videoDemonstration :=
              JS.or payload.(RecipePayload.videoDemonstration)
                    recipe.(Recipe.videoDemonstration)
          |} in
          (Ok updatedRecipe, insert recipe.(Recipe.id) updatedRecipe recipeStorage)
    | None =>
        (Err ("Failed to update recipe with id: " +:+ recipeId +:+ "!"), recipeStorage)
    end.

(** The record is looked up, the owner is compared, and only then is the record
    removed. *)
Definition deleteRecipe (recipeId requesterId : string) (recipeStorage : Storage)
  : Result Recipe * Storage :=
  if negb (isValidUUID recipeId)
  then (Err "Invalid recipe ID for deleting a recipe.", recipeStorage)
  else
    match get recipeId recipeStorage with
    | Some recipe =>
        if negb (String.eqb recipe.(Recipe.ownerId) requesterId)
        then (Err "Only the owner can delete the recipe!", recipeStorage)
        else (Ok recipe, (remove recipeId recipeStorage).2)
    | None => (Err ("Failed to delete recipe with id: " +:+ recipeId), recipeStorage)
    end.

Inductive Call : Type :=
| CreateRecipe (requesterId : string) (payload : RecipePayload)
| UpdateRecipe (recipeId requesterId : string) (payload : RecipePayload)
| DeleteRecipe (recipeId requesterId : string).

Definition exec {Rng : Type} (uuidv4 : Rng → option (string * Rng)) (c : Call)
  (state : Storage * Rng) : Storage * Rng :=
  match c with
  | CreateRecipe requesterId payload =>
      let '(_, recipeStorage, rng) :=
        createRecipe uuidv4 requesterId payload state.1 state.2 in
      (recipeStorage, rng)
  | UpdateRecipe recipeId requesterId payload =>
      ((updateRecipe recipeId requesterId payload state.1).2, state.2)
  | DeleteRecipe recipeId requesterId =>
      ((deleteRecipe recipeId requesterId state.1).2, state.2)
  end.

Definition run {Rng : Type} (uuidv4 : Rng → option (string * Rng)) (calls : list Call)
  (state : Storage * Rng) : Storage * Rng :=
  foldl (λ state c, exec uuidv4 c state) state calls.

End RevB.

(** ** Notions of the specification *)

(** A hexadecimal digit, in either letter case. *)
Definition hexDigit (c : ascii) : Prop :=
  c ∈ list_ascii_of_string "0123456789abcdefABCDEF".

Global Instance hexDigit_dec (c : ascii) : Decision (hexDigit c).
Proof. unfold hexDigit. apply _. Defined.

(** A group of exactly [n] hexadecimal digits. *)
Definition hexGroup (n : nat) (g : string) : Prop :=
  String.length g = n ∧ Forall hexDigit (list_ascii_of_string g).

(** Eight hex digits, dash, three dash-separated groups of four hex digits,
    dash, twelve hex digits. *)
Definition uuidShape (s : string) : Prop :=
  ∃ g1 g2 g3 g4 g5 : string,
    s = g1 +:+ "-" +:+ g2 +:+ "-" +:+ g3 +:+ "-" +:+ g4 +:+ "-" +:+ g5
    ∧ hexGroup 8 g1 ∧ hexGroup 4 g2 ∧ hexGroup 4 g3 ∧ hexGroup 4 g4
    ∧ hexGroup 12 g5.

(** A version-4 UUID carries the version digit [4] at index 14 and a variant
    digit among [8], [9], [a], [b] at index 19. *)
Definition isVersion4 (s : string) : Prop :=
  uuidShape s
  ∧ String.get 14 s = Some "4"%char
  ∧ ∃ v, String.get 19 s = Some v
         ∧ v ∈ list_ascii_of_string "89abAB".

(** Two characters are the same up to letter case when they are equal or one
    is the upper-case form of the other, 32 code points below. *)
Definition sameCharUpToCase (a b : ascii) : Prop :=
  a = b
  ∨ (JS.isUpper a = true ∧ N_of_ascii b = (N_of_ascii a + 32)%N)
  ∨ (JS.isUpper b = true ∧ N_of_ascii a = (N_of_ascii b + 32)%N).

(** Two strings that differ at most in the case of their ASCII letters. *)
Definition sameUpToCase (s t : string) : Prop :=
  Forall2 sameCharUpToCase (list_ascii_of_string s) (list_ascii_of_string t).

(** Two strings are equal up to letter case, whatever the script, when they
    have the same lower-case form: the caseless match of the Unicode standard,
    taken with the lower-casing the engine has. *)
Definition equalIgnoringCase (unicodeLower : string → string) (s t : string) : Prop :=
  JS.toLowerCase unicodeLower s = JS.toLowerCase unicodeLower t.

(** The records of a store, whatever their order. *)
Definition stored (recipeStorage : Storage) (recipe : Recipe) : Prop :=
  ∃ k, recipeStorage !! k = Some recipe.

(** Every record is stored under its own id, and that id is UUID-shaped. *)
Definition keyedById (recipeStorage : Storage) : Prop :=
  ∀ k recipe, recipeStorage !! k = Some recipe →
    recipe.(Recipe.id) = k ∧ uuidShape k.

(** In revision A the owner ids are drawn by the canister, so they are
    UUID-shaped as well. *)
Definition ownersShaped (recipeStorage : Storage) : Prop :=
  ∀ k recipe, recipeStorage !! k = Some recipe → uuidShape recipe.(Recipe.ownerId).

(** The random source gives UUID-shaped identifiers. *)
Definition givesUuids {Rng : Type} (uuidv4 : Rng → string * Rng) : Prop :=
  ∀ rng, uuidShape (uuidv4 rng).1.

(** Whenever [uuidv4()] returns, what it returns is UUID-shaped. *)
Definition drawsUuids {Rng : Type} (uuidv4 : Rng → option (string * Rng)) : Prop :=
  ∀ rng recipeId rng', uuidv4 rng = Some (recipeId, rng') → uuidShape recipeId.

(** All five payload fields are non-empty. *)
Definition complete (payload : RecipePayload) : Prop :=
  payload.(RecipePayload.recipeName) ≠ ""
  ∧ payload.(RecipePayload.recipeType) ≠ ""
  ∧ payload.(RecipePayload.description) ≠ ""
  ∧ payload.(RecipePayload.ownerName) ≠ ""
  ∧ payload.(RecipePayload.videoDemonstration) ≠ "".


(** At least one of the five payload fields is the empty string. *)
Definition incomplete (payload : RecipePayload) : Prop :=
  payload.(RecipePayload.recipeName) = ""
  ∨ payload.(RecipePayload.recipeType) = ""
  ∨ payload.(RecipePayload.description) = ""
  ∨ payload.(RecipePayload.ownerName) = ""
  ∨ payload.(RecipePayload.videoDemonstration) = "".

(** The record carries the five fields of the payload. *)
Definition madeFrom (payload : RecipePayload) (recipe : Recipe) : Prop :=
  recipe.(Recipe.recipeName) = payload.(RecipePayload.recipeName)
  ∧ recipe.(Recipe.recipeType) = payload.(RecipePayload.recipeType)
  ∧ recipe.(Recipe.description) = payload.(RecipePayload.description)
  ∧ recipe.(Recipe.ownerName) = payload.(RecipePayload.ownerName)
  ∧ recipe.(Recipe.videoDemonstration) = payload.(RecipePayload.videoDemonstration).

(** A payload field overwrites a stored field when it is non-empty and leaves
    it alone when it is empty. *)
Definition overwrites (new old result : string) : Prop :=
  (new ≠ "" → result = new) ∧ (new = "" → result = old).

(** [updated] is [recipe] after the payload was written over it: non-empty
    payload fields overwrite, empty ones leave the stored value, and the id
    and the owner id are those of [recipe]. *)
Definition updatedFrom (payload : RecipePayload) (recipe updated : Recipe) : Prop :=
  overwrites payload.(RecipePayload.recipeName)
             recipe.(Recipe.recipeName) updated.(Recipe.recipeName)
  ∧ overwrites payload.(RecipePayload.recipeType)
               recipe.(Recipe.recipeType) updated.(Recipe.recipeType)
  ∧ overwrites payload.(RecipePayload.description)
               recipe.(Recipe.description) updated.(Recipe.description)
  ∧ overwrites payload.(RecipePayload.ownerName)
               recipe.(Recipe.ownerName) updated.(Recipe.ownerName)
  ∧ overwrites payload.(RecipePayload.videoDemonstration)
               recipe.(Recipe.videoDemonstration) updated.(Recipe.videoDemonstration)
  ∧ updated.(Recipe.id) = recipe.(Recipe.id)
  ∧ updated.(Recipe.ownerId) = recipe.(Recipe.ownerId).

(** [uuidv4] where no [crypto.getRandomValues] is installed: every call
    throws. *)
Definition noRandomSource {Rng : Type} : Rng → option (string * Rng) :=
  λ _, None.

(** Lower-casing by an engine without case tables beyond ASCII; the sample
    data is ASCII, where it is never consulted. *)
Definition noCaseTables : string → string := λ s, s.

(** A source of identifiers that hands out two UUIDs in turn. *)
Definition alternatingUuidv4 (rng : bool) : string * bool :=
  (if rng then "123e4567-e89b-42d3-a456-426614174000"
   else "9b2e0f7a-3c41-4d5e-8f60-a1b2c3d4e5f6", negb rng).

(** ** Sample data: the recipes of the specification's example scenario *)

Definition banitsaPayload : RecipePayload := {|
  RecipePayload.recipeName := "Banitsa";
  RecipePayload.recipeType := "Bulgarian";
  RecipePayload.description := "Filo pastry with eggs and cheese";
  RecipePayload.ownerName := "Maria";
  RecipePayload.videoDemonstration := "https://example.org/banitsa"
|}.

Definition emptyPayload : RecipePayload := {|
  RecipePayload.recipeName := "";
  RecipePayload.recipeType := "";
  RecipePayload.description := "";
  RecipePayload.ownerName := "";
  RecipePayload.videoDemonstration := ""
|}.

Definition renamePayload : RecipePayload := {|
  RecipePayload.recipeName := "Banitsa with spinach";
  RecipePayload.recipeType := "";
  RecipePayload.description := "";
  RecipePayload.ownerName := "";
  RecipePayload.videoDemonstration := ""
|}.

Definition banitsaId : string := "123e4567-e89b-42d3-a456-426614174000".
Definition mariaId : string := "9b2e0f7a-3c41-4d5e-8f60-a1b2c3d4e5f6".
Definition ivanId : string := "0c9d8e7f-6a5b-4c3d-9e2f-1a0b9c8d7e6f".
Definition nilUuid : string := "00000000-0000-0000-0000-000000000000".

Definition banitsa : Recipe := {|
  Recipe.id := banitsaId;
  Recipe.recipeName := "Banitsa";
  Recipe.ownerName := "Maria";
  Recipe.ownerId := mariaId;
  Recipe.description := "Filo pastry with eggs and cheese";
  Recipe.recipeType := "Bulgarian";
  Recipe.videoDemonstration := "https://example.org/banitsa"
|}.

Definition banitsaStore : Storage := {[ banitsaId := banitsa ]}.

(** Recipe B of the scenario, which differs from recipe A in letter case and
    owner, and the store after Maria and then Ivan have created theirs in
    revision B. *)
Definition banitsaLowerPayload : RecipePayload := {|
  RecipePayload.recipeName := "banitsa";
  RecipePayload.recipeType := "bulgarian";
  RecipePayload.description := "With leeks";
  RecipePayload.ownerName := "Ivan";
  RecipePayload.videoDemonstration := "https://example.org/banitsa-2"
|}.

Definition scenarioStore : Storage :=
  (RevB.run (JS.returning alternatingUuidv4)
     [RevB.CreateRecipe mariaId banitsaPayload;
      RevB.CreateRecipe ivanId banitsaLowerPayload]
     (∅, true)).1.

(** A query answers with a part of the store, and never with an empty list:
    when it returns [Ok], the list is not empty and is a sublist of
    [values()]. *)
Definition answersWithRecords (recipeStorage : Storage) (answer : Result (list Recipe))
  : Prop :=
  ∀ result, answer = Ok result →
    result ≠ [] ∧ result `sublist_of` StableBTreeMap.values recipeStorage.

(** A call failed. *)
Definition failed {A : Type} (answer : Result A) : Prop :=
  ∃ message, answer = Err message.

(** Ivan's recipe of the scenario as a stored record, and a store that holds
    it next to Maria's. *)
Definition ivansRecipeId : string := "5f0e9d8c-7b6a-4f5e-8d4c-3b2a1f0e9d8c".

Definition ivansBanitsa : Recipe := {|
  Recipe.id := ivansRecipeId;
  Recipe.recipeName := "banitsa";
  Recipe.ownerName := "Ivan";
  Recipe.ownerId := ivanId;
  Recipe.description := "With leeks";
  Recipe.recipeType := "bulgarian";
  Recipe.videoDemonstration := "https://example.org/banitsa-2"
|}.

Definition twoRecipes : Storage := <[ivansRecipeId := ivansBanitsa]> banitsaStore.

(** * Proofs *)

(** ** Strings *)

Lemma string_app_cons (c : ascii) (s t : string) :
  String c s +:+ t = String c (s +:+ t).
Proof. done. Qed.

Lemma string_app_assoc (s t u : string) : (s +:+ t) +:+ u = s +:+ (t +:+ u).
Proof.
  induction s as [|c s IH]; [done|]. rewrite !string_app_cons. by rewrite IH.
Qed.

Lemma string_app_nil_r (s : string) : s +:+ "" = s.
Proof.
  induction s as [|c s IH]; [done|]. rewrite string_app_cons. by rewrite IH.
Qed.

Lemma truthy_true (s : string) : JS.truthy s = true ↔ s ≠ "".
Proof. destruct s; cbn; split; intros; congruence. Qed.

Lemma truthy_false (s : string) : JS.truthy s = false ↔ s = "".
Proof. destruct s; cbn; split; intros; congruence. Qed.

Lemma or_overwrites (new old : string) : overwrites new old (JS.or new old).
Proof.
  unfold overwrites, JS.or. destruct new; cbn; split; intros; congruence.
Qed.

Lemma or_idem (new old : string) : JS.or new (JS.or new old) = JS.or new old.
Proof. unfold JS.or. by destruct new. Qed.

Lemma string_eqb_refl (s : string) : String.eqb s s = true.
Proof. by apply String.eqb_eq. Qed.

(** ** The matcher against the words a pattern denotes *)

Section Matcher.
Import RegExp.
Context (i : bool).

Lemma matchPrefix_Repeat_S (n : nat) (p : pattern) (s : string) :
  matchPrefix i (Repeat (S n) p) s = matchPrefix i p s ≫= matchPrefix i (Repeat n p).
Proof. done. Qed.

Lemma matchPrefix_sound (p : pattern) :
  ∀ s r, matchPrefix i p s = Some r → ∃ w, matches i p w ∧ s = w +:+ r.
Proof.
  induction p as [c|ranges|p IHp q IHq|n p IHp].
  - intros [|x s] r H; cbn in H; [done|].
    destruct (charTest i c x) eqn:E; [|done]. injection H as <-.
    exists (String x ""). split; [by constructor|done].
  - intros [|x s] r H; cbn in H; [done|].
    destruct (classTest i ranges x) eqn:E; [|done]. injection H as <-.
    exists (String x ""). split; [by constructor|done].
  - intros s r H. cbn in H.
    destruct (matchPrefix i p s) as [m|] eqn:E; [|done]. cbn in H.
    destruct (IHp _ _ E) as (w1 & M1 & ->).
    destruct (IHq _ _ H) as (w2 & M2 & ->).
    exists (w1 +:+ w2). split; [by constructor|]. by rewrite string_app_assoc.
  - induction n as [|n IHn]; intros s r H.
    + cbn in H. injection H as <-. exists "". split; [constructor|done].
    + rewrite matchPrefix_Repeat_S in H.
      destruct (matchPrefix i p s) as [m|] eqn:E; [|done]. cbn in H.
      destruct (IHp _ _ E) as (w1 & M1 & ->).
      destruct (IHn _ _ H) as (w2 & M2 & ->).
      exists (w1 +:+ w2). split; [by constructor|]. by rewrite string_app_assoc.
Qed.

Lemma matchPrefix_complete (p : pattern) (w : string) :
  matches i p w → ∀ r, matchPrefix i p (w +:+ r) = Some r.
Proof.
  induction 1 as [c x H|ranges x H|p q s t _ IHp _ IHq|p|n p s t _ IHp _ IHn];
    intros r.
  - rewrite string_app_cons. cbn. by rewrite H.
  - rewrite string_app_cons. cbn. by rewrite H.
  - cbn [matchPrefix]. rewrite string_app_assoc, IHp. cbn. apply IHq.
  - done.
  - rewrite matchPrefix_Repeat_S, string_app_assoc, IHp. cbn. apply IHn.
Qed.

Lemma test_matches (p : pattern) (s : string) :
  test i p s = true ↔ matches i p s.
Proof.
  unfold test. split.
  - destruct (matchPrefix i p s) as [[|]|] eqn:E; try done. intros _.
    destruct (matchPrefix_sound _ _ _ E) as (w & M & ->).
    by rewrite string_app_nil_r.
  - intros M. pose proof (matchPrefix_complete _ _ M "") as E.
    rewrite string_app_nil_r in E. by rewrite E.
Qed.

Lemma matches_Char_inv (c : ascii) (w : string) :
  matches i (Char c) w → ∃ x, w = String x "" ∧ charTest i c x = true.
Proof. inversion 1; eauto. Qed.

Lemma matches_Seq_inv (p q : pattern) (w : string) :
  matches i (Seq p q) w → ∃ s t, w = s +:+ t ∧ matches i p s ∧ matches i q t.
Proof. inversion 1; eauto. Qed.

Lemma matches_Repeat_S_inv (n : nat) (p : pattern) (w : string) :
  matches i (Repeat (S n) p) w →
  ∃ s t, w = s +:+ t ∧ matches i p s ∧ matches i (Repeat n p) t.
Proof. inversion 1; eauto. Qed.

Lemma matches_Repeat_O_inv (p : pattern) (w : string) :
  matches i (Repeat 0 p) w → w = "".
Proof. by inversion 1. Qed.

(** [[...]{n}] denotes the words of [n] characters of the class. *)
Lemma matches_Repeat_Class (ranges : list (ascii * ascii)) (n : nat) (w : string) :
  matches i (Repeat n (Class ranges)) w ↔
  String.length w = n
  ∧ Forall (λ x, classTest i ranges x = true) (list_ascii_of_string w).
Proof.
  revert w. induction n as [|n IH]; intros w; split.
  - intros ->%matches_Repeat_O_inv. by split; [|constructor].
  - intros [L _]. destruct w; [constructor|done].
  - intros (s & t & -> & Hs & Ht)%matches_Repeat_S_inv.
    inversion Hs; subst. apply IH in Ht as [<- Ht]. cbn. split; [done|].
    by constructor.
  - intros [L F]. destruct w as [|x w]; [done|]. cbn in L, F.
    apply Forall_cons in F as [Hx F].
    change (String x w) with (String x "" +:+ w). constructor.
    + by constructor.
    + apply IH. split; [lia|done].
Qed.

End Matcher.

(** ** The two UUID patterns denote the UUID shape *)

Lemma classTest_RevA_hex (x : ascii) :
  RegExp.classTest true [("0", "9"); ("a", "f")]%char x = bool_decide (hexDigit x).
Proof. by destruct x as [[] [] [] [] [] [] [] []]; vm_compute. Qed.

Lemma classTest_RevB_hex (x : ascii) :
  RegExp.classTest true [("a", "f"); ("A", "F"); ("0", "9")]%char x
  = bool_decide (hexDigit x).
Proof. by destruct x as [[] [] [] [] [] [] [] []]; vm_compute. Qed.

Lemma charTest_dash (x : ascii) :
  RegExp.charTest true "-" x = bool_decide (x = "-"%char).
Proof. by destruct x as [[] [] [] [] [] [] [] []]; vm_compute. Qed.

Lemma matches_dash (w : string) :
  RegExp.matches true (RegExp.Char "-") w ↔ w = "-".
Proof.
  split.
  - intros (x & -> & H)%matches_Char_inv.
    rewrite charTest_dash in H. by apply bool_decide_eq_true in H as ->.
  - intros ->. constructor. by rewrite charTest_dash.
Qed.

Lemma matches_RevA_group (n : nat) (g : string) :
  RegExp.matches true (RegExp.Repeat n RevA.hexClass) g ↔ hexGroup n g.
Proof.
  unfold RevA.hexClass, hexGroup. rewrite matches_Repeat_Class.
  apply and_iff_compat_l, Forall_iff. intros x.
  rewrite classTest_RevA_hex. apply bool_decide_eq_true.
Qed.

Lemma matches_RevB_group (n : nat) (g : string) :
  RegExp.matches true (RegExp.Repeat n RevB.hexClass) g ↔ hexGroup n g.
Proof.
  unfold RevB.hexClass, hexGroup. rewrite matches_Repeat_Class.
  apply and_iff_compat_l, Forall_iff. intros x.
  rewrite classTest_RevB_hex. apply bool_decide_eq_true.
Qed.

Lemma matches_Seq_eq (i : bool) (p q : RegExp.pattern) (s t w : string) :
  RegExp.matches i p s → RegExp.matches i q t → w = s +:+ t →
  RegExp.matches i (RegExp.Seq p q) w.
Proof. intros ?? ->. by constructor. Qed.

Lemma matches_Repeat_S_eq (i : bool) (n : nat) (p : RegExp.pattern) (s t w : string) :
  RegExp.matches i p s → RegExp.matches i (RegExp.Repeat n p) t → w = s +:+ t →
  RegExp.matches i (RegExp.Repeat (S n) p) w.
Proof. intros ?? ->. by constructor. Qed.

Ltac reassociate := rewrite ?string_app_assoc, ?string_app_nil_r; try reflexivity.

Lemma RevA_pattern_shape (s : string) :
  RegExp.matches true RevA.uuidPattern s ↔ uuidShape s.
Proof.
  unfold RevA.uuidPattern, uuidShape. split.
  - intros (g1 & t1 & -> & G1 & H)%matches_Seq_inv.
    apply matches_Seq_inv in H as (d1 & t2 & -> & ->%matches_dash & H).
    apply matches_Seq_inv in H as (m & g5 & -> & M & G5).
    apply matches_Repeat_S_inv in M as (b2 & m2 & -> & B2 & M).
    apply matches_Repeat_S_inv in M as (b3 & m3 & -> & B3 & M).
    apply matches_Repeat_S_inv in M as (b4 & m4 & -> & B4 & ->%matches_Repeat_O_inv).
    apply matches_Seq_inv in B2 as (g2 & d2 & -> & G2 & ->%matches_dash).
    apply matches_Seq_inv in B3 as (g3 & d3 & -> & G3 & ->%matches_dash).
    apply matches_Seq_inv in B4 as (g4 & d4 & -> & G4 & ->%matches_dash).
    exists g1, g2, g3, g4, g5. rewrite <- !matches_RevA_group.
    split; [reassociate|done].
  - intros (g1 & g2 & g3 & g4 & g5 & -> & G1 & G2 & G3 & G4 & G5).
    apply matches_RevA_group in G1, G2, G3, G4, G5.
    pose proof (proj2 (matches_dash "-") eq_refl) as D.
    eapply matches_Seq_eq; [exact G1| |reflexivity].
    eapply matches_Seq_eq; [exact D| |reflexivity].
    eapply matches_Seq_eq; [|exact G5|].
    + eapply matches_Repeat_S_eq; [exact (RegExp.matches_Seq _ _ _ _ _ G2 D)| |reflexivity].
      eapply matches_Repeat_S_eq; [exact (RegExp.matches_Seq _ _ _ _ _ G3 D)| |reflexivity].
      eapply matches_Repeat_S_eq; [exact (RegExp.matches_Seq _ _ _ _ _ G4 D)| |reflexivity].
      constructor.
    + reassociate.
Qed.

Lemma RevB_pattern_shape (s : string) :
  RegExp.matches true RevB.uuidPattern s ↔ uuidShape s.
Proof.
  unfold RevB.uuidPattern, uuidShape. split.
  - intros (g1 & t1 & -> & G1 & H)%matches_Seq_inv.
    apply matches_Seq_inv in H as (d1 & t2 & -> & ->%matches_dash & H).
    apply matches_Seq_inv in H as (g2 & t3 & -> & G2 & H).
    apply matches_Seq_inv in H as (d2 & t4 & -> & ->%matches_dash & H).
    apply matches_Seq_inv in H as (g3 & t5 & -> & G3 & H).
    apply matches_Seq_inv in H as (d3 & t6 & -> & ->%matches_dash & H).
    apply matches_Seq_inv in H as (g4 & t7 & -> & G4 & H).
    apply matches_Seq_inv in H as (d4 & g5 & -> & ->%matches_dash & G5).
    exists g1, g2, g3, g4, g5. by rewrite <- !matches_RevB_group.
  - intros (g1 & g2 & g3 & g4 & g5 & -> & G1 & G2 & G3 & G4 & G5).
    apply matches_RevB_group in G1, G2, G3, G4, G5.
    pose proof (proj2 (matches_dash "-") eq_refl) as D.
    repeat (first [exact G5 | constructor; [first [assumption | exact D]|]]).
Qed.

Lemma RevA_isValidUUID_shape (s : string) : RevA.isValidUUID s = true ↔ uuidShape s.
Proof. unfold RevA.isValidUUID. by rewrite test_matches, RevA_pattern_shape. Qed.

Lemma RevB_isValidUUID_shape (s : string) : RevB.isValidUUID s = true ↔ uuidShape s.
Proof. unfold RevB.isValidUUID. by rewrite test_matches, RevB_pattern_shape. Qed.

Lemma RevA_isValidUUID_false (s : string) : RevA.isValidUUID s = false ↔ ¬ uuidShape s.
Proof. rewrite <- RevA_isValidUUID_shape. by destruct (RevA.isValidUUID s). Qed.

Lemma RevB_isValidUUID_false (s : string) : RevB.isValidUUID s = false ↔ ¬ uuidShape s.
Proof. rewrite <- RevB_isValidUUID_shape. by destruct (RevB.isValidUUID s). Qed.

Lemma RevA_RevB_isValidUUID (s : string) : RevA.isValidUUID s = RevB.isValidUUID s.
Proof.
  destruct (RevB.isValidUUID s) eqn:E.
  - by apply RevA_isValidUUID_shape, RevB_isValidUUID_shape.
  - by apply RevA_isValidUUID_false, RevB_isValidUUID_false.
Qed.

(** ** The stable B-tree map *)

Section Values.
Import StableBTreeMap.

Global Instance keyLe_total : Total keyLe.
Proof. intros a b. unfold keyLe. apply total, _. Qed.

Lemma items_Permutation (m : Storage) : items m ≡ₚ map_to_list m.
Proof. apply merge_sort_Permutation. Qed.

(** [values()] comes in ascending key order. *)
Lemma items_Sorted (m : Storage) : Sorted keyLe (items m).
Proof. apply Sorted_merge_sort, _. Qed.

Lemma values_stored (m : Storage) (recipe : Recipe) :
  recipe ∈ values m ↔ stored m recipe.
Proof.
  unfold values, stored. rewrite list_elem_of_fmap. split.
  - intros ([k v] & -> & H). exists k.
    rewrite items_Permutation in H. by apply elem_of_map_to_list in H.
  - intros [k H]. exists (k, recipe). split; [done|].
    rewrite items_Permutation. by apply elem_of_map_to_list.
Qed.

Lemma values_length (m : Storage) : length (values m) = size m.
Proof.
  unfold values. rewrite length_fmap, items_Permutation. apply length_map_to_list.
Qed.

Lemma values_empty : values (∅ : Storage) = [].
Proof. apply nil_length_inv. by rewrite values_length, map_size_empty. Qed.

Lemma values_length_0 (m : Storage) : (length (values m) =? 0) = true ↔ m = ∅.
Proof. rewrite Nat.eqb_eq, values_length. apply map_size_empty_iff. Qed.

End Values.

(** ** The invariants of the store *)

Lemma keyedById_empty : keyedById ∅.
Proof. intros k recipe H. by rewrite lookup_empty in H. Qed.

Lemma ownersShaped_empty : ownersShaped ∅.
Proof. intros k recipe H. by rewrite lookup_empty in H. Qed.

Lemma keyedById_insert (m : Storage) (recipe : Recipe) :
  keyedById m → uuidShape recipe.(Recipe.id) →
  keyedById (<[recipe.(Recipe.id) := recipe]> m).
Proof.
  intros Hm Hid k r. rewrite lookup_insert. case_decide as E.
  - intros [= <-]. by subst k.
  - apply Hm.
Qed.

Lemma keyedById_delete (m : Storage) (k : string) : keyedById m → keyedById (delete k m).
Proof. intros Hm k' r H. apply lookup_delete_Some in H as [_ H]. by apply Hm. Qed.

Lemma ownersShaped_insert (m : Storage) (k : string) (recipe : Recipe) :
  ownersShaped m → uuidShape recipe.(Recipe.ownerId) →
  ownersShaped (<[k := recipe]> m).
Proof.
  intros Hm Ho k' r. rewrite lookup_insert. case_decide as E.
  - by intros [= <-].
  - apply Hm.
Qed.

Lemma ownersShaped_delete (m : Storage) (k : string) :
  ownersShaped m → ownersShaped (delete k m).
Proof. intros Hm k' r H. apply lookup_delete_Some in H as [_ H]. by eapply Hm. Qed.

Lemma complete_truthy (payload : RecipePayload) :
  complete payload ↔
  negb (JS.truthy payload.(RecipePayload.recipeType))
  || negb (JS.truthy payload.(RecipePayload.description))
  || negb (JS.truthy payload.(RecipePayload.ownerName))
  || negb (JS.truthy payload.(RecipePayload.videoDemonstration))
  || negb (JS.truthy payload.(RecipePayload.recipeName)) = false.
Proof.
  unfold complete. rewrite <- !truthy_true.
  destruct (JS.truthy _), (JS.truthy _), (JS.truthy _), (JS.truthy _), (JS.truthy _);
    cbn; intuition congruence.
Qed.

Lemma returning_drawsUuids {Rng : Type} (uuidv4 : Rng → string * Rng) :
  givesUuids uuidv4 → drawsUuids (JS.returning uuidv4).
Proof.
  intros U rng recipeId rng' E. unfold JS.returning in E. injection E as E.
  specialize (U rng). by rewrite E in U.
Qed.

Section Invariants.
Context {Rng : Type} (uuidv4 : Rng → option (string * Rng)).
Hypothesis uuidv4_shape : drawsUuids uuidv4.

Lemma RevA_exec_inv (c : RevA.Call) (state : Storage * Rng) :
  keyedById state.1 ∧ ownersShaped state.1 →
  keyedById (RevA.exec uuidv4 c state).1 ∧ ownersShaped (RevA.exec uuidv4 c state).1.
Proof using uuidv4_shape.
  destruct state as [m rng]. intros [K O]. destruct c as [p|k who p|k who]; simpl.
  - unfold RevA.createRecipe. destruct (_ || _); [done|].
    destruct (uuidv4 rng) as [[recipeId rng1]|] eqn:E1; [|done].
    destruct (uuidv4 rng1) as [[newOwnerId rng2]|] eqn:E2; [|done].
    pose proof (uuidv4_shape _ _ _ E1) as H1.
    pose proof (uuidv4_shape _ _ _ E2) as H2. simpl in *.
    split; [by apply (keyedById_insert m (Recipe.Build_Recipe _ _ _ _ _ _ _))|].
    by apply ownersShaped_insert.
  - unfold RevA.updateRecipe. destruct (_ || _); [done|].
    unfold StableBTreeMap.get. destruct (m !! k) as [recipe|] eqn:E; [|done].
    destruct (negb _); [done|]. simpl. destruct (K _ _ E) as [Hid Hk].
    pose proof (O _ _ E) as Ho.
    split; [apply (keyedById_insert m (Recipe.Build_Recipe _ _ _ _ _ _ _));
            [exact K|subst k; exact Hk]|].
    by apply ownersShaped_insert.
  - unfold RevA.deleteRecipe. destruct (_ || _); [done|]. simpl.
    assert (keyedById (delete k m) ∧ ownersShaped (delete k m)) as D
      by (split; [by apply keyedById_delete|by apply ownersShaped_delete]).
    destruct (m !! k); [destruct (negb _)|]; done.
Qed.

Lemma RevB_exec_inv (c : RevB.Call) (state : Storage * Rng) :
  keyedById state.1 → keyedById (RevB.exec uuidv4 c state).1.
Proof using uuidv4_shape.
  destruct state as [m rng]. intros K. destruct c as [who p|k who p|k who]; simpl.
  - unfold RevB.createRecipe. destruct (_ || _); [done|].
    destruct (uuidv4 rng) as [[recipeId rng1]|] eqn:E1; [|done].
    pose proof (uuidv4_shape _ _ _ E1) as H1. simpl in *.
    by apply (keyedById_insert m (Recipe.Build_Recipe _ _ _ _ _ _ _)).
  - unfold RevB.updateRecipe. destruct (negb (RevB.isValidUUID k)); [done|].
    unfold StableBTreeMap.get. destruct (m !! k) as [recipe|] eqn:E; [|done].
    destruct (negb _); [done|]. simpl. destruct (K _ _ E) as [Hid Hk].
    apply (keyedById_insert m (Recipe.Build_Recipe _ _ _ _ _ _ _));
      [exact K|subst k; exact Hk].
  - unfold RevB.deleteRecipe. destruct (negb (RevB.isValidUUID k)); [done|].
    unfold StableBTreeMap.get. destruct (m !! k); [destruct (negb _)|]; try done.
    simpl. by apply keyedById_delete.
Qed.

(** Whatever calls revision A has served since the canister was installed
    with an empty store, every record sits under its own UUID-shaped id and
    has a UUID-shaped owner id. *)
Lemma RevA_run_inv (calls : list RevA.Call) (rng : Rng) :
  keyedById (RevA.run uuidv4 calls (∅, rng)).1
  ∧ ownersShaped (RevA.run uuidv4 calls (∅, rng)).1.
Proof using uuidv4_shape.
  unfold RevA.run.
  assert (keyedById (∅, rng).1 ∧ ownersShaped (∅, rng).1) as H
    by (split; [apply keyedById_empty|apply ownersShaped_empty]).
  revert H. generalize ((∅, rng) : Storage * Rng).
  induction calls as [|c calls IH]; intros state H; [done|].
  simpl. by apply IH, RevA_exec_inv.
Qed.

(** The same for revision B, whose owner ids are whatever the callers sent. *)
Lemma RevB_run_inv (calls : list RevB.Call) (rng : Rng) :
  keyedById (RevB.run uuidv4 calls (∅, rng)).1.
Proof using uuidv4_shape.
  unfold RevB.run.
  assert (keyedById (∅, rng).1) as H by apply keyedById_empty.
  revert H. generalize ((∅, rng) : Storage * Rng).
  induction calls as [|c calls IH]; intros state H; [done|].
  simpl. by apply IH, RevB_exec_inv.
Qed.

End Invariants.

(** ** Sample data satisfies the invariants *)

Lemma uuidShape_of_test (s : string) : RevA.isValidUUID s = true → uuidShape s.
Proof. apply RevA_isValidUUID_shape. Qed.

Lemma alternatingUuidv4_shape : givesUuids alternatingUuidv4.
Proof. intros [|]; by apply uuidShape_of_test. Qed.

Lemma banitsaStore_lookup : banitsaStore !! banitsaId = Some banitsa.
Proof. apply lookup_singleton_eq. Qed.

Lemma banitsaStore_keyed : keyedById banitsaStore.
Proof.
  intros k r H. unfold banitsaStore in H.
  apply lookup_singleton_Some in H as [<- <-]. split; [done|].
  by apply uuidShape_of_test.
Qed.

Lemma banitsaStore_owners : ownersShaped banitsaStore.
Proof.
  intros k r H. unfold banitsaStore in H.
  apply lookup_singleton_Some in H as [<- <-]. by apply uuidShape_of_test.
Qed.

(** The example scenario of the specification: after recipe A (Banitsa,
    Bulgarian, Maria) and recipe B (banitsa, bulgarian, Ivan) were created,
    the name ["BANITSA"] finds both and the owner name ["Maria"] finds A only. *)
Example scenario_lookups :
  ∀ unicodeLower : string → string,
  ∃ a b,
    a.(Recipe.ownerName) = "Maria" ∧ b.(Recipe.ownerName) = "Ivan"
    ∧ RevB.getAllRecipes scenarioStore = Ok [a; b]
    ∧ RevB.getRecipeByName unicodeLower "BANITSA" scenarioStore = Ok [a; b]
    ∧ RevB.getRecipesByOwnersName "Maria" mariaId scenarioStore = Ok [a]
    ∧ RevB.getRecipesByType unicodeLower "BULGARIAN" scenarioStore = Ok [a; b].
Proof. intros unicodeLower. eexists _, _. repeat split; vm_compute; reflexivity. Qed.

(** ** The validator *)

(** C5: [isValidUUID] is a total boolean function that answers [true] exactly
    on the strings made of eight hex digits, a dash, three dash-separated
    groups of four hex digits, a dash and twelve hex digits, in either letter
    case, and [false] on every other string; it accepts
    ["123e4567-e89b-12d3-a456-426614174000"] and rejects ["not-a-uuid"], the
    empty string and strings whose hyphens group the digits differently. *)
Theorem isValidUUID_exactly_uuidShape :
  (∀ s, RevA.isValidUUID s = true ↔ uuidShape s)
  ∧ (∀ s, RevA.isValidUUID s = false ↔ ¬ uuidShape s)
  ∧ (∀ s, RevB.isValidUUID s = true ↔ uuidShape s)
  ∧ (∀ s, RevB.isValidUUID s = false ↔ ¬ uuidShape s)
  ∧ RevA.isValidUUID "123e4567-e89b-12d3-a456-426614174000" = true
  ∧ RevB.isValidUUID "123e4567-e89b-12d3-a456-426614174000" = true
  ∧ RevA.isValidUUID "123E4567-E89B-12D3-A456-426614174000" = true
  ∧ RevB.isValidUUID "123E4567-E89B-12D3-A456-426614174000" = true
  ∧ RevA.isValidUUID "not-a-uuid" = false
  ∧ RevB.isValidUUID "not-a-uuid" = false
  ∧ RevA.isValidUUID "" = false
  ∧ RevB.isValidUUID "" = false
  ∧ RevA.isValidUUID "123e-4567e89b-12d3-a456-426614174000" = false
  ∧ RevB.isValidUUID "123e-4567e89b-12d3-a456-426614174000" = false
  ∧ RevA.isValidUUID "123e4567e89b-12d3-a456-4266-14174000" = false
  ∧ RevB.isValidUUID "123e4567e89b-12d3-a456-4266-14174000" = false.
Proof.
  split; [exact RevA_isValidUUID_shape|].
  split; [exact RevA_isValidUUID_false|].
  split; [exact RevB_isValidUUID_shape|].
  split; [exact RevB_isValidUUID_false|].
  repeat split; vm_compute; reflexivity.
Qed.

Lemma nilUuid_version : String.get 14 nilUuid = Some "0"%char.
Proof. reflexivity. Qed.

(** C9: [isValidUUID] looks at the 8-4-4-4-12 hex shape only, never at the
    version or variant digit: every string of that shape is accepted, among
    them ["00000000-0000-0000-0000-000000000000"], which is not a version-4
    UUID; the methods that validate an id accept it too (here [getRecipeById]
    goes on to look it up, and revision A's [updateRecipe] takes it as identity
    and as record id). *)
Theorem isValidUUID_ignores_version :
  (∀ s, uuidShape s → RevA.isValidUUID s = true ∧ RevB.isValidUUID s = true)
  ∧ uuidShape nilUuid
  ∧ ¬ isVersion4 nilUuid
  ∧ RevA.isValidUUID nilUuid = true
  ∧ RevB.isValidUUID nilUuid = true
  ∧ RevA.getRecipeById nilUuid ∅
    = Err "Recipe with the provided id: 00000000-0000-0000-0000-000000000000 has not been found!"
  ∧ RevB.getRecipeById nilUuid nilUuid ∅
    = Err "Recipe with the provided id: 00000000-0000-0000-0000-000000000000 has not been found!"
  ∧ RevA.updateRecipe nilUuid nilUuid emptyPayload ∅
    = (Err "Failed to update recipe with id: 00000000-0000-0000-0000-000000000000!", ∅).
Proof.
  split.
  { intros s H. split; [by apply RevA_isValidUUID_shape|by apply RevB_isValidUUID_shape]. }
  split; [by apply uuidShape_of_test|].
  split; [intros (_ & V & _); by rewrite nilUuid_version in V|].
  repeat split; vm_compute; reflexivity.
Qed.

Lemma isValidUUID_ignores_version_witness :
  RevA.isValidUUID nilUuid = true ∧ RevB.isValidUUID nilUuid = true.
Proof.
  destruct isValidUUID_ignores_version as (H & S & _). exact (H nilUuid S).
Defined.

(** ** Reading the store *)

(** C7: on a store without records [getAllRecipes] fails with the
    empty-result message instead of returning an empty list; on any other
    store it returns [Ok] with a list that holds exactly the stored records,
    one entry per key. *)
Theorem getAllRecipes_empty_is_error :
  RevA.getAllRecipes ∅ = Err "There are no recipes at this moment."
  ∧ RevB.getAllRecipes ∅ = Err "There are no recipes at this moment."
  ∧ RevA.getAllRecipes ∅ ≠ Ok []
  ∧ RevB.getAllRecipes ∅ ≠ Ok []
  ∧ (∀ recipeStorage : Storage, recipeStorage ≠ ∅ →
       ∃ recipes,
         RevA.getAllRecipes recipeStorage = Ok recipes
         ∧ RevB.getAllRecipes recipeStorage = Ok recipes
         ∧ (∀ recipe, recipe ∈ recipes ↔ stored recipeStorage recipe)
         ∧ length recipes = size recipeStorage).
Proof.
  unfold RevA.getAllRecipes, RevB.getAllRecipes. rewrite values_empty. cbn.
  repeat split; try done.
  intros m Hm. exists (StableBTreeMap.values m).
  destruct (length (StableBTreeMap.values m) =? 0) eqn:E.
  { by apply values_length_0 in E. }
  repeat split; try done.
  - by apply values_stored.
  - by apply values_stored.
  - apply values_length.
Qed.

Lemma getAllRecipes_empty_is_error_witness :
  ∃ recipes, RevA.getAllRecipes banitsaStore = Ok recipes ∧ banitsa ∈ recipes.
Proof.
  destruct getAllRecipes_empty_is_error as (_ & _ & _ & _ & H).
  destruct (H banitsaStore) as (recipes & HA & _ & Hin & _).
  - intros E. pose proof banitsaStore_lookup as L. rewrite E in L. discriminate L.
  - exists recipes. split; [exact HA|]. apply Hin. exists banitsaId.
    exact banitsaStore_lookup.
Defined.

(** ** Letter case *)

Lemma N_of_ascii_inj (a b : ascii) : N_of_ascii a = N_of_ascii b → a = b.
Proof.
  intros H. rewrite <- (ascii_N_embedding a), <- (ascii_N_embedding b).
  by rewrite H.
Qed.

Lemma isUpper_spec (a : ascii) :
  JS.isUpper a = true ↔ (65 ≤ N_of_ascii a ∧ N_of_ascii a ≤ 90)%N.
Proof.
  unfold JS.isUpper. change (N_of_ascii "A") with 65%N.
  change (N_of_ascii "Z") with 90%N. by rewrite andb_true_iff, !N.leb_le.
Qed.

Lemma toLowerChar_N (a : ascii) :
  N_of_ascii (JS.toLowerChar a)
  = if JS.isUpper a then (N_of_ascii a + 32)%N else N_of_ascii a.
Proof.
  unfold JS.toLowerChar. destruct (JS.isUpper a) eqn:E; [|done].
  apply isUpper_spec in E. apply N_ascii_embedding. lia.
Qed.

Lemma toLowerChar_eq (a b : ascii) :
  JS.toLowerChar a = JS.toLowerChar b ↔ sameCharUpToCase a b.
Proof.
  unfold sameCharUpToCase. split.
  - intros H. apply (f_equal N_of_ascii) in H. rewrite !toLowerChar_N in H.
    destruct (JS.isUpper a) eqn:Ea, (JS.isUpper b) eqn:Eb.
    + left. apply N_of_ascii_inj. lia.
    + right; left. by split.
    + right; right. by split.
    + left. by apply N_of_ascii_inj.
  - intros [->|[[U E]|[U E]]]; [done|..]; apply N_of_ascii_inj;
      rewrite !toLowerChar_N, U.
    + destruct (JS.isUpper b) eqn:Eb; [|done].
      apply isUpper_spec in U, Eb. lia.
    + destruct (JS.isUpper a) eqn:Ea; [|done].
      apply isUpper_spec in U, Ea. lia.
Qed.

(** [asciiLower] identifies exactly the strings that differ at most in the
    case of their ASCII letters. *)
Lemma asciiLower_eq (s t : string) :
  JS.asciiLower s = JS.asciiLower t ↔ sameUpToCase s t.
Proof.
  unfold sameUpToCase. revert t.
  induction s as [|a s IH]; intros [|b t]; cbn; split; intros H;
    try done; try (by inversion H).
  - injection H as Hc Hs. constructor; [by apply toLowerChar_eq|by apply IH].
  - apply Forall2_cons in H as [Hc Hs].
    apply toLowerChar_eq in Hc. apply IH in Hs. congruence.
Qed.

Lemma sameCharUpToCase_isAsciiChar (a b : ascii) :
  sameCharUpToCase a b → JS.isAsciiChar a = JS.isAsciiChar b.
Proof.
  unfold JS.isAsciiChar. intros [->|[[U E]|[U E]]]; [done|..];
    apply isUpper_spec in U; rewrite E;
    apply eq_trans with true; [| symmetry | |symmetry]; apply N.ltb_lt; lia.
Qed.

Lemma sameUpToCase_isAscii (s t : string) :
  sameUpToCase s t → JS.isAscii s = JS.isAscii t.
Proof.
  unfold sameUpToCase. revert t.
  induction s as [|a s IH]; intros [|b t] H; try done; try (by inversion H).
  cbn in H. apply Forall2_cons in H as [Hc Hs]. cbn.
  by rewrite (sameCharUpToCase_isAsciiChar _ _ Hc), (IH _ Hs).
Qed.

Section LowerCase.
Context (unicodeLower : string → string).

(** A change in the case of ASCII letters never shows in the lower-case form,
    whatever else the strings hold. *)
Lemma sameUpToCase_equalIgnoringCase (s t : string) :
  sameUpToCase s t → equalIgnoringCase unicodeLower s t.
Proof.
  intros H. unfold equalIgnoringCase, JS.toLowerCase.
  rewrite (sameUpToCase_isAscii _ _ H). by rewrite (proj2 (asciiLower_eq _ _) H).
Qed.


End LowerCase.

(** ** Queries that scan the store *)

Section Scan.
Import StableBTreeMap.
Context (P : Recipe → Prop) `{P_dec : !∀ recipe, Decision (P recipe)}.

Lemma scan_elem_of (m : Storage) (recipe : Recipe) :
  recipe ∈ filter P (values m) ↔ stored m recipe ∧ P recipe.
Proof. rewrite list_elem_of_filter, values_stored. tauto. Qed.

Lemma scan_none (m : Storage) :
  (length (filter P (values m)) =? 0) = true ↔ ∀ recipe, stored m recipe → ¬ P recipe.
Proof.
  rewrite Nat.eqb_eq. split.
  - intros N%nil_length_inv recipe Hs HP.
    assert (recipe ∈ filter P (values m)) as Hin by (by apply scan_elem_of).
    rewrite N in Hin. by apply not_elem_of_nil in Hin.
  - intros N. destruct (filter P (values m)) as [|r l] eqn:E; [done|].
    assert (r ∈ filter P (values m)) as Hin by (rewrite E; left).
    apply scan_elem_of in Hin as [Hs HP]. by destruct (N r).
Qed.

Lemma scan_some (m : Storage) (recipe : Recipe) :
  stored m recipe → P recipe → (length (filter P (values m)) =? 0) = false.
Proof.
  intros Hs HP. destruct (length _ =? 0) eqn:E; [|done].
  by destruct (proj1 (scan_none m) E recipe).
Qed.

End Scan.



(** A name outside ASCII: stored as ["éclair"] and asked for as ["ÉCLAIR"], the
    record is found as soon as the engine lower-cases [É] to [é]. *)
Example eclair_is_found :
  ∀ (unicodeLower : string → string) (recipeStorage : Storage) (recipe : Recipe),
    stored recipeStorage recipe →
    recipe.(Recipe.recipeName) = "éclair" →
    unicodeLower "Éclair" = unicodeLower "éclair" →
    ∃ result,
      RevA.getRecipeByName unicodeLower "ÉCLAIR" recipeStorage = Ok result
      ∧ recipe ∈ result.
Proof.
  intros unicodeLower m recipe Hs Hn Hu. unfold RevA.getRecipeByName. eexists.
  rewrite (scan_some _ m recipe Hs).
  - split; [reflexivity|]. apply scan_elem_of. split; [done|].
    rewrite Hn. unfold JS.toLowerCase. by vm_compute.
  - rewrite Hn. unfold JS.toLowerCase. by vm_compute.
Qed.

(** ** Creating a record *)

Lemma incomplete_truthy (payload : RecipePayload) :
  incomplete payload →
  negb (JS.truthy payload.(RecipePayload.recipeType))
  || negb (JS.truthy payload.(RecipePayload.description))
  || negb (JS.truthy payload.(RecipePayload.ownerName))
  || negb (JS.truthy payload.(RecipePayload.videoDemonstration))
  || negb (JS.truthy payload.(RecipePayload.recipeName)) = true.
Proof.
  unfold incomplete. rewrite <- !truthy_false.
  destruct (JS.truthy _), (JS.truthy _), (JS.truthy _), (JS.truthy _), (JS.truthy _);
    cbn; intuition congruence.
Qed.

Section Create.
Context {Rng : Type} (uuidv4 : Rng → option (string * Rng)).

Lemma RevA_createRecipe_incomplete (payload : RecipePayload) (m : Storage) (rng : Rng) :
  incomplete payload →
  RevA.createRecipe uuidv4 payload m rng = (Err "Incomplete input data!", m, rng).
Proof. intros H. unfold RevA.createRecipe. by rewrite (incomplete_truthy _ H). Qed.

Lemma RevB_createRecipe_incomplete (requesterId : string) (payload : RecipePayload)
  (m : Storage) (rng : Rng) :
  incomplete payload →
  RevB.createRecipe uuidv4 requesterId payload m rng
  = (Err "Incomplete input data!", m, rng).
Proof. intros H. unfold RevB.createRecipe. by rewrite (incomplete_truthy _ H). Qed.

Lemma RevA_createRecipe_returns (payload : RecipePayload) (m : Storage) (rng : Rng)
  (recipeId newOwnerId : string) (rng1 rng2 : Rng) :
  complete payload →
  uuidv4 rng = Some (recipeId, rng1) →
  uuidv4 rng1 = Some (newOwnerId, rng2) →
  ∃ recipe,
    RevA.createRecipe uuidv4 payload m rng
    = (Ok recipe, <[recipeId := recipe]> m, rng2)
    ∧ madeFrom payload recipe
    ∧ recipe.(Recipe.id) = recipeId
    ∧ recipe.(Recipe.ownerId) = newOwnerId.
Proof.
  intros H E1 E2. unfold RevA.createRecipe.
  rewrite (proj1 (complete_truthy _) H), E1, E2. simpl.
  match goal with |- context [Ok ?r] => exists r end.
  split; [reflexivity|]. by repeat split.
Qed.

Lemma RevB_createRecipe_returns (requesterId : string) (payload : RecipePayload)
  (m : Storage) (rng : Rng) (recipeId : string) (rng1 : Rng) :
  complete payload →
  uuidv4 rng = Some (recipeId, rng1) →
  ∃ recipe,
    RevB.createRecipe uuidv4 requesterId payload m rng
    = (Ok recipe, <[recipeId := recipe]> m, rng1)
    ∧ madeFrom payload recipe
    ∧ recipe.(Recipe.id) = recipeId
    ∧ recipe.(Recipe.ownerId) = requesterId.
Proof.
  intros H E1. unfold RevB.createRecipe.
  rewrite (proj1 (complete_truthy _) H), E1. simpl.
  match goal with |- context [Ok ?r] => exists r end.
  split; [reflexivity|]. by repeat split.
Qed.

Lemma RevA_createRecipe_throws (payload : RecipePayload) (m : Storage) (rng : Rng) :
  complete payload →
  uuidv4 rng = None →
  RevA.createRecipe uuidv4 payload m rng = (Err "Failed to create recipe!", m, rng).
Proof.
  intros H E1. unfold RevA.createRecipe.
  by rewrite (proj1 (complete_truthy _) H), E1.
Qed.

Lemma RevA_createRecipe_throws_second (payload : RecipePayload) (m : Storage)
  (rng : Rng) (recipeId : string) (rng1 : Rng) :
  complete payload →
  uuidv4 rng = Some (recipeId, rng1) →
  uuidv4 rng1 = None →
  RevA.createRecipe uuidv4 payload m rng = (Err "Failed to create recipe!", m, rng1).
Proof.
  intros H E1 E2. unfold RevA.createRecipe.
  by rewrite (proj1 (complete_truthy _) H), E1, E2.
Qed.

Lemma RevB_createRecipe_throws (requesterId : string) (payload : RecipePayload)
  (m : Storage) (rng : Rng) :
  complete payload →
  uuidv4 rng = None →
  RevB.createRecipe uuidv4 requesterId payload m rng
  = (Err "Failed to create recipe!", m, rng).
Proof.
  intros H E1. unfold RevB.createRecipe.
  by rewrite (proj1 (complete_truthy _) H), E1.
Qed.

End Create.

(** With a [uuidv4] that never throws. *)
Lemma RevA_createRecipe_complete {Rng : Type} (uuidv4 : Rng → string * Rng)
  (payload : RecipePayload) (m : Storage) (rng : Rng) :
  complete payload →
  ∃ recipe,
    RevA.createRecipe (JS.returning uuidv4) payload m rng
    = (Ok recipe, <[recipe.(Recipe.id) := recipe]> m, (uuidv4 (uuidv4 rng).2).2)
    ∧ madeFrom payload recipe
    ∧ recipe.(Recipe.id) = (uuidv4 rng).1
    ∧ recipe.(Recipe.ownerId) = (uuidv4 (uuidv4 rng).2).1.
Proof.
  intros H.
  destruct (RevA_createRecipe_returns (JS.returning uuidv4) payload m rng
              (uuidv4 rng).1 (uuidv4 (uuidv4 rng).2).1 (uuidv4 rng).2
              (uuidv4 (uuidv4 rng).2).2 H) as (recipe & E & F & I & O).
  - unfold JS.returning. by destruct (uuidv4 rng).
  - unfold JS.returning. by destruct (uuidv4 (uuidv4 rng).2).
  - exists recipe. by rewrite I.
Qed.

Lemma RevB_createRecipe_complete {Rng : Type} (uuidv4 : Rng → string * Rng)
  (requesterId : string) (payload : RecipePayload) (m : Storage) (rng : Rng) :
  complete payload →
  ∃ recipe,
    RevB.createRecipe (JS.returning uuidv4) requesterId payload m rng
    = (Ok recipe, <[recipe.(Recipe.id) := recipe]> m, (uuidv4 rng).2)
    ∧ madeFrom payload recipe
    ∧ recipe.(Recipe.id) = (uuidv4 rng).1
    ∧ recipe.(Recipe.ownerId) = requesterId.
Proof.
  intros H.
  destruct (RevB_createRecipe_returns (JS.returning uuidv4) requesterId payload m rng
              (uuidv4 rng).1 (uuidv4 rng).2 H) as (recipe & E & F & I & O).
  - unfold JS.returning. by destruct (uuidv4 rng).
  - exists recipe. by rewrite I.
Qed.

(** C6, as stated, promises success for every payload with five non-empty
    fields.  [createRecipe] also needs [uuidv4()] to return: where no random
    source is installed, as in revision B on its own, the call throws and the
    [catch] answers with the failed-to-create message. *)
Lemma complete_payload_fails_without_random_source :
  complete banitsaPayload
  ∧ RevB.createRecipe (@noRandomSource unit) mariaId banitsaPayload ∅ ()
    = (Err "Failed to create recipe!", ∅, ())
  ∧ RevB.createRecipe (@noRandomSource unit) mariaId banitsaPayload ∅ ()
    ≠ (Ok banitsa, <[banitsaId := banitsa]> ∅, ()).
Proof.
  assert (complete banitsaPayload) as C by (by repeat split).
  split; [exact C|].
  rewrite (RevB_createRecipe_throws noRandomSource mariaId banitsaPayload ∅ () C eq_refl).
  split; [done|]. intros [=].
Qed.

(** C6 (as amended): [createRecipe] fails with the incomplete-input message and
    leaves the store and the random source untouched whenever one of the five
    payload fields is the empty string.  Whenever all five are non-empty, it
    succeeds if [uuidv4()] returns what it is asked for (twice in revision A,
    once in revision B): it returns a record made from the payload under the
    drawn id, and the store afterwards is the old store with that record
    inserted under its id, one record larger when the id was not in use.  If
    [uuidv4()] throws, it fails with the failed-to-create message and the
    store is unchanged. *)
Theorem createRecipe_checks_completeness :
  ∀ (Rng : Type) (uuidv4 : Rng → option (string * Rng)) (requesterId : string)
    (payload : RecipePayload) (recipeStorage : Storage) (rng : Rng),
    (incomplete payload →
       RevA.createRecipe uuidv4 payload recipeStorage rng
       = (Err "Incomplete input data!", recipeStorage, rng)
       ∧ RevB.createRecipe uuidv4 requesterId payload recipeStorage rng
         = (Err "Incomplete input data!", recipeStorage, rng))
    ∧ (complete payload →
         (∀ recipeId rng1 newOwnerId rng2,
            uuidv4 rng = Some (recipeId, rng1) →
            uuidv4 rng1 = Some (newOwnerId, rng2) →
            ∃ recipe,
              RevA.createRecipe uuidv4 payload recipeStorage rng
              = (Ok recipe, <[recipeId := recipe]> recipeStorage, rng2)
              ∧ madeFrom payload recipe
              ∧ recipe.(Recipe.id) = recipeId
              ∧ recipe.(Recipe.ownerId) = newOwnerId
              ∧ (<[recipeId := recipe]> recipeStorage) !! recipeId = Some recipe
              ∧ (recipeStorage !! recipeId = None →
                 size (<[recipeId := recipe]> recipeStorage) = S (size recipeStorage)))
         ∧ (∀ recipeId rng1,
              uuidv4 rng = Some (recipeId, rng1) →
              ∃ recipe,
                RevB.createRecipe uuidv4 requesterId payload recipeStorage rng
                = (Ok recipe, <[recipeId := recipe]> recipeStorage, rng1)
                ∧ madeFrom payload recipe
                ∧ recipe.(Recipe.id) = recipeId
                ∧ recipe.(Recipe.ownerId) = requesterId
                ∧ (<[recipeId := recipe]> recipeStorage) !! recipeId = Some recipe
                ∧ (recipeStorage !! recipeId = None →
                   size (<[recipeId := recipe]> recipeStorage)
                   = S (size recipeStorage)))
         ∧ (uuidv4 rng = None →
            RevA.createRecipe uuidv4 payload recipeStorage rng
            = (Err "Failed to create recipe!", recipeStorage, rng)
            ∧ RevB.createRecipe uuidv4 requesterId payload recipeStorage rng
              = (Err "Failed to create recipe!", recipeStorage, rng))
         ∧ (∀ recipeId rng1,
              uuidv4 rng = Some (recipeId, rng1) →
              uuidv4 rng1 = None →
              RevA.createRecipe uuidv4 payload recipeStorage rng
              = (Err "Failed to create recipe!", recipeStorage, rng1))).
Proof.
  intros Rng uuidv4 who payload m rng. split.
  - intros H. split.
    + by apply RevA_createRecipe_incomplete.
    + by apply RevB_createRecipe_incomplete.
  - intros H. split; [|split; [|split]].
    + intros recipeId rng1 newOwnerId rng2 E1 E2.
      destruct (RevA_createRecipe_returns uuidv4 payload m rng _ _ _ _ H E1 E2)
        as (recipe & E & F & I & O).
      exists recipe. split; [exact E|]. split; [exact F|]. split; [exact I|].
      split; [exact O|]. split; [apply lookup_insert_eq|apply map_size_insert_None].
    + intros recipeId rng1 E1.
      destruct (RevB_createRecipe_returns uuidv4 who payload m rng _ _ H E1)
        as (recipe & E & F & I & O).
      exists recipe. split; [exact E|]. split; [exact F|]. split; [exact I|].
      split; [exact O|]. split; [apply lookup_insert_eq|apply map_size_insert_None].
    + intros E1. split.
      * by apply RevA_createRecipe_throws.
      * by apply RevB_createRecipe_throws.
    + intros recipeId rng1 E1 E2. by apply (RevA_createRecipe_throws_second _ _ _ _ recipeId).
Qed.

Lemma banitsaPayload_complete : complete banitsaPayload.
Proof. by repeat split. Qed.

Lemma emptyPayload_incomplete : incomplete emptyPayload.
Proof. by left. Qed.

Lemma createRecipe_checks_completeness_witness :
  RevA.createRecipe (JS.returning alternatingUuidv4) emptyPayload ∅ true
  = (Err "Incomplete input data!", ∅, true)
  ∧ (∃ recipe,
       RevA.createRecipe (JS.returning alternatingUuidv4) banitsaPayload ∅ true
       = (Ok recipe, <[banitsaId := recipe]> ∅, true)
       ∧ recipe.(Recipe.id) = banitsaId)
  ∧ RevB.createRecipe (@noRandomSource unit) mariaId banitsaPayload ∅ ()
    = (Err "Failed to create recipe!", ∅, ()).
Proof.
  split; [|split].
  - exact (proj1 (proj1 (createRecipe_checks_completeness
                           bool (JS.returning alternatingUuidv4) mariaId emptyPayload
                           ∅ true)
                        emptyPayload_incomplete)).
  - destruct (proj1 (proj2 (createRecipe_checks_completeness
                              bool (JS.returning alternatingUuidv4) mariaId
                              banitsaPayload ∅ true)
                           banitsaPayload_complete)
                banitsaId false mariaId true eq_refl eq_refl)
      as (recipe & E & _ & I & _).
    exists recipe. split; [exact E|exact I].
  - exact (proj2 (proj1 (proj2 (proj2 (proj2 (createRecipe_checks_completeness
                           unit noRandomSource mariaId banitsaPayload ∅ ())
                        banitsaPayload_complete))) eq_refl)).
Defined.

(** C2: for every payload whose five fields are non-empty, [createRecipe]
    followed by [getRecipeById] with the id of the returned record (and, in
    revision B, the requester id used at creation) returns [Ok] with the
    record [createRecipe] returned.  The random source is assumed to give
    UUID-shaped identifiers. *)
Theorem createRecipe_then_getRecipeById :
  ∀ (Rng : Type) (uuidv4 : Rng → string * Rng),
    givesUuids uuidv4 →
    ∀ (requesterId : string) (payload : RecipePayload) (recipeStorage : Storage)
      (rng : Rng),
      complete payload →
      (∃ recipe recipeStorage' rng',
         RevA.createRecipe (JS.returning uuidv4) payload recipeStorage rng
         = (Ok recipe, recipeStorage', rng')
         ∧ RevA.getRecipeById recipe.(Recipe.id) recipeStorage' = Ok recipe)
      ∧ (∃ recipe recipeStorage' rng',
           RevB.createRecipe (JS.returning uuidv4) requesterId payload recipeStorage rng
           = (Ok recipe, recipeStorage', rng')
           ∧ RevB.getRecipeById recipe.(Recipe.id) requesterId recipeStorage'
             = Ok recipe).
Proof.
  intros Rng uuidv4 U who payload m rng H. split.
  - destruct (RevA_createRecipe_complete uuidv4 payload m rng H)
      as (recipe & E & _ & I & _).
    eexists recipe, _, _. split; [exact E|].
    unfold RevA.getRecipeById, StableBTreeMap.get.
    assert (RevA.isValidUUID (Recipe.id recipe) = true) as ->.
    { apply RevA_isValidUUID_shape. rewrite I. apply U. }
    simpl. by rewrite lookup_insert_eq.
  - destruct (RevB_createRecipe_complete uuidv4 who payload m rng H)
      as (recipe & E & _ & I & O).
    eexists recipe, _, _. split; [exact E|].
    unfold RevB.getRecipeById, StableBTreeMap.get.
    assert (RevB.isValidUUID (Recipe.id recipe) = true) as ->.
    { apply RevB_isValidUUID_shape. rewrite I. apply U. }
    simpl. rewrite lookup_insert_eq. by rewrite O, string_eqb_refl.
Qed.

Lemma createRecipe_then_getRecipeById_witness :
  givesUuids alternatingUuidv4 ∧ complete banitsaPayload
  ∧ ∃ recipe recipeStorage' rng',
      RevA.createRecipe (JS.returning alternatingUuidv4) banitsaPayload ∅ true
      = (Ok recipe, recipeStorage', rng')
      ∧ RevA.getRecipeById recipe.(Recipe.id) recipeStorage' = Ok recipe.
Proof.
  split; [exact alternatingUuidv4_shape|]. split; [exact banitsaPayload_complete|].
  exact (proj1 (createRecipe_then_getRecipeById bool alternatingUuidv4
                  alternatingUuidv4_shape mariaId banitsaPayload ∅ true
                  banitsaPayload_complete)).
Defined.

(** ** Updating and deleting a record *)

Lemma string_eqb_false (s t : string) : s ≠ t → String.eqb s t = false.
Proof. apply String.eqb_neq. Qed.

Lemma RevA_valid (s : string) : uuidShape s → RevA.isValidUUID s = true.
Proof. apply RevA_isValidUUID_shape. Qed.

Lemma RevB_valid (s : string) : uuidShape s → RevB.isValidUUID s = true.
Proof. apply RevB_isValidUUID_shape. Qed.

Section Update.
Context (m : Storage) (k : string) (recipe : Recipe) (payload : RecipePayload).
Hypothesis lookup_k : m !! k = Some recipe.
Hypothesis shape_k : uuidShape k.

Lemma RevA_updateRecipe_owner :
  uuidShape recipe.(Recipe.ownerId) →
  ∃ updated,
    RevA.updateRecipe k recipe.(Recipe.ownerId) payload m
    = (Ok updated, <[recipe.(Recipe.id) := updated]> m)
    ∧ updatedFrom payload recipe updated.
Proof using lookup_k shape_k.
  intros Ho. unfold RevA.updateRecipe, StableBTreeMap.get.
  rewrite (RevA_valid _ shape_k), (RevA_valid _ Ho), lookup_k, string_eqb_refl.
  simpl. match goal with |- context [Ok ?r] => exists r end.
  split; [reflexivity|]. unfold updatedFrom. simpl.
  repeat split; try apply or_overwrites; apply or_overwrites.
Qed.

Lemma RevB_updateRecipe_owner :
  ∃ updated,
    RevB.updateRecipe k recipe.(Recipe.ownerId) payload m
    = (Ok updated, <[recipe.(Recipe.id) := updated]> m)
    ∧ updatedFrom payload recipe updated.
Proof using lookup_k shape_k.
  unfold RevB.updateRecipe, StableBTreeMap.get.
  rewrite (RevB_valid _ shape_k), lookup_k, string_eqb_refl.
  simpl. match goal with |- context [Ok ?r] => exists r end.
  split; [reflexivity|]. unfold updatedFrom. simpl.
  repeat split; try apply or_overwrites; apply or_overwrites.
Qed.

Context (who : string).
Hypothesis stranger : who ≠ recipe.(Recipe.ownerId).

Lemma RevA_updateRecipe_stranger :
  RevA.updateRecipe k who payload m
  = (if RevA.isValidUUID who
     then Err "Only the owner of the recipe can update this recipe!"
     else Err "Invalid recipe or owner ID for updating the recipe.", m).
Proof using lookup_k shape_k stranger.
  unfold RevA.updateRecipe, StableBTreeMap.get. rewrite (RevA_valid _ shape_k).
  destruct (RevA.isValidUUID who); [|done]. simpl.
  rewrite lookup_k, string_eqb_false; [done|congruence].
Qed.

Lemma RevB_updateRecipe_stranger :
  RevB.updateRecipe k who payload m
  = (Err "Only the owner of the recipe can update this recipe!", m).
Proof using lookup_k shape_k stranger.
  unfold RevB.updateRecipe, StableBTreeMap.get. rewrite (RevB_valid _ shape_k).
  simpl. rewrite lookup_k, string_eqb_false; [done|congruence].
Qed.

Lemma RevB_deleteRecipe_stranger :
  RevB.deleteRecipe k who m = (Err "Only the owner can delete the recipe!", m).
Proof using lookup_k shape_k stranger.
  unfold RevB.deleteRecipe, StableBTreeMap.get. rewrite (RevB_valid _ shape_k).
  simpl. rewrite lookup_k, string_eqb_false; [done|congruence].
Qed.

(** Revision A has already removed the record when it finds that the caller
    is not the owner: the call fails and the record is gone. *)
Lemma RevA_deleteRecipe_stranger :
  uuidShape who →
  RevA.deleteRecipe k who m = (Err "Only the owner can delete the recipe!", delete k m).
Proof using lookup_k shape_k stranger.
  intros Hw. unfold RevA.deleteRecipe, StableBTreeMap.remove.
  rewrite (RevA_valid _ shape_k), (RevA_valid _ Hw). simpl.
  rewrite lookup_k, string_eqb_false; [done|congruence].
Qed.

End Update.

Lemma RevA_deleteRecipe_malformed (m : Storage) (k who : string) :
  RevA.isValidUUID who = false →
  RevA.deleteRecipe k who m
  = (Err "Invalid recipe or owner ID for deleting an Recipe.", m).
Proof.
  intros H. unfold RevA.deleteRecipe. rewrite H. by rewrite orb_true_r.
Qed.

(** Idempotence holds for every call, failed ones included. *)
Lemma RevA_updateRecipe_idem (k who : string) (payload : RecipePayload) (m : Storage) :
  RevA.updateRecipe k who payload (RevA.updateRecipe k who payload m).2
  = RevA.updateRecipe k who payload m.
Proof.
  unfold RevA.updateRecipe, StableBTreeMap.get, StableBTreeMap.insert.
  destruct (negb (RevA.isValidUUID k) || negb (RevA.isValidUUID who)) eqn:V;
    cbn [snd]; [done|].
  destruct (m !! k) as [recipe|] eqn:L; cbn [snd]; [|by rewrite ?L].
  destruct (negb (String.eqb (Recipe.ownerId recipe) who)) eqn:O;
    cbn [snd]; [by rewrite ?L, ?O|].
  destruct (decide (Recipe.id recipe = k)) as [<-|N].
  - rewrite lookup_insert_eq. cbn [Recipe.id Recipe.recipeName Recipe.ownerName
      Recipe.ownerId Recipe.description Recipe.recipeType Recipe.videoDemonstration].
    rewrite O, !or_idem.
    by rewrite insert_insert_eq.
  - rewrite lookup_insert_ne, L by done. rewrite O. by rewrite insert_insert_eq.
Qed.

Lemma RevB_updateRecipe_idem (k who : string) (payload : RecipePayload) (m : Storage) :
  RevB.updateRecipe k who payload (RevB.updateRecipe k who payload m).2
  = RevB.updateRecipe k who payload m.
Proof.
  unfold RevB.updateRecipe, StableBTreeMap.get, StableBTreeMap.insert.
  destruct (negb (RevB.isValidUUID k)) eqn:V; cbn [snd]; [done|].
  destruct (m !! k) as [recipe|] eqn:L; cbn [snd]; [|by rewrite ?L].
  destruct (negb (String.eqb (Recipe.ownerId recipe) who)) eqn:O;
    cbn [snd]; [by rewrite ?L, ?O|].
  destruct (decide (Recipe.id recipe = k)) as [<-|N].
  - rewrite lookup_insert_eq. cbn [Recipe.id Recipe.recipeName Recipe.ownerName
      Recipe.ownerId Recipe.description Recipe.recipeType Recipe.videoDemonstration].
    rewrite O, !or_idem.
    by rewrite insert_insert_eq.
  - rewrite lookup_insert_ne, L by done. rewrite O. by rewrite insert_insert_eq.
Qed.

Lemma updatedFrom_emptyPayload (recipe updated : Recipe) :
  updatedFrom emptyPayload recipe updated → updated = recipe.
Proof.
  intros ([_ N] & [_ T] & [_ D] & [_ O] & [_ V] & I & W).
  destruct recipe, updated. simpl in *.
  rewrite (N eq_refl), (T eq_refl), (D eq_refl), (O eq_refl), (V eq_refl), I, W.
  reflexivity.
Qed.

(** C3: [updateRecipe] is idempotent.  Calling it a second time with the same
    id, identity and payload returns what the first call returned and leaves
    the store as the first call left it; this holds for every call, so in
    particular for the owner's calls on a stored record. *)
Theorem updateRecipe_idempotent :
  ∀ (recipeId identity : string) (payload : RecipePayload) (recipeStorage : Storage),
    RevA.updateRecipe recipeId identity payload
      (RevA.updateRecipe recipeId identity payload recipeStorage).2
    = RevA.updateRecipe recipeId identity payload recipeStorage
    ∧ RevB.updateRecipe recipeId identity payload
        (RevB.updateRecipe recipeId identity payload recipeStorage).2
      = RevB.updateRecipe recipeId identity payload recipeStorage.
Proof.
  intros k who payload m. split.
  - apply RevA_updateRecipe_idem.
  - apply RevB_updateRecipe_idem.
Qed.

Lemma updateRecipe_idempotent_witness :
  ∃ updated,
    RevA.updateRecipe banitsaId mariaId renamePayload banitsaStore
    = (Ok updated, <[banitsaId := updated]> banitsaStore)
    ∧ updated.(Recipe.recipeName) = "Banitsa with spinach"
    ∧ RevA.updateRecipe banitsaId mariaId renamePayload
        (<[banitsaId := updated]> banitsaStore)
      = (Ok updated, <[banitsaId := updated]> banitsaStore).
Proof.
  destruct (RevA_updateRecipe_owner banitsaStore banitsaId banitsa renamePayload
              banitsaStore_lookup (proj2 (banitsaStore_keyed _ _ banitsaStore_lookup))
              (banitsaStore_owners _ _ banitsaStore_lookup))
    as (updated & E & ([N _] & _)).
  exists updated. split; [exact E|]. split; [by apply N|].
  pose proof (proj1 (updateRecipe_idempotent banitsaId mariaId renamePayload
                       banitsaStore)) as I.
  change (Recipe.ownerId banitsa) with mariaId in E.
  change (Recipe.id banitsa) with banitsaId in E.
  rewrite E in I. exact I.
Defined.

(** C4: when the owner updates a stored record, the call succeeds; in the
    record it produces every non-empty payload field has overwritten the
    stored field, every empty payload field has left the stored value, and
    [id] and [ownerId] are those of the record before the update; that record
    replaces the old one under the same key and is the value returned.  (In
    revision A the owner id is format checked first, so it has to be
    UUID-shaped, as every owner id drawn by revision A is.) *)
Theorem updateRecipe_overwrites_nonempty_fields :
  ∀ (recipeStorage : Storage) (recipeId : string) (recipe : Recipe)
    (payload : RecipePayload),
    keyedById recipeStorage →
    recipeStorage !! recipeId = Some recipe →
    (uuidShape recipe.(Recipe.ownerId) →
       ∃ updated,
         RevA.updateRecipe recipeId recipe.(Recipe.ownerId) payload recipeStorage
         = (Ok updated, <[recipeId := updated]> recipeStorage)
         ∧ updatedFrom payload recipe updated
         ∧ (<[recipeId := updated]> recipeStorage) !! recipeId = Some updated)
    ∧ (∃ updated,
         RevB.updateRecipe recipeId recipe.(Recipe.ownerId) payload recipeStorage
         = (Ok updated, <[recipeId := updated]> recipeStorage)
         ∧ updatedFrom payload recipe updated
         ∧ (<[recipeId := updated]> recipeStorage) !! recipeId = Some updated).
Proof.
  intros m k recipe payload K L. destruct (K _ _ L) as [I S]. split.
  - intros O.
    destruct (RevA_updateRecipe_owner m k recipe payload L S O) as (updated & E & F).
    exists updated. rewrite I in E. split; [exact E|]. split; [exact F|].
    apply lookup_insert_eq.
  - destruct (RevB_updateRecipe_owner m k recipe payload L S) as (updated & E & F).
    exists updated. rewrite I in E. split; [exact E|]. split; [exact F|].
    apply lookup_insert_eq.
Qed.

Lemma updateRecipe_overwrites_nonempty_fields_witness :
  keyedById banitsaStore
  ∧ banitsaStore !! banitsaId = Some banitsa
  ∧ ∃ updated,
      RevB.updateRecipe banitsaId mariaId renamePayload banitsaStore
      = (Ok updated, <[banitsaId := updated]> banitsaStore)
      ∧ updated.(Recipe.recipeName) = "Banitsa with spinach"
      ∧ updated.(Recipe.recipeType) = "Bulgarian"
      ∧ updated.(Recipe.id) = banitsaId
      ∧ updated.(Recipe.ownerId) = mariaId.
Proof.
  split; [exact banitsaStore_keyed|]. split; [exact banitsaStore_lookup|].
  destruct (proj2 (updateRecipe_overwrites_nonempty_fields banitsaStore banitsaId
                     banitsa renamePayload banitsaStore_keyed banitsaStore_lookup))
    as (updated & E & ([N _] & [_ T] & _ & _ & _ & I & O) & _).
  exists updated. split; [exact E|].
  split; [by apply N|]. split; [by apply T|]. split; [exact I|exact O].
Defined.

(** C10: [updateRecipe] does not check that the payload is complete.  Called by
    the owner with a payload of five empty strings it succeeds, returns the
    stored record and leaves the store exactly as it was, whereas
    [createRecipe] refuses that payload as incomplete input. *)
Theorem updateRecipe_accepts_empty_payload :
  ∀ (recipeStorage : Storage) (recipeId : string) (recipe : Recipe),
    keyedById recipeStorage →
    recipeStorage !! recipeId = Some recipe →
    (uuidShape recipe.(Recipe.ownerId) →
       RevA.updateRecipe recipeId recipe.(Recipe.ownerId) emptyPayload recipeStorage
       = (Ok recipe, recipeStorage))
    ∧ RevB.updateRecipe recipeId recipe.(Recipe.ownerId) emptyPayload recipeStorage
      = (Ok recipe, recipeStorage)
    ∧ (∀ (Rng : Type) (uuidv4 : Rng → option (string * Rng)) (rng : Rng),
         RevA.createRecipe uuidv4 emptyPayload recipeStorage rng
         = (Err "Incomplete input data!", recipeStorage, rng)
         ∧ RevB.createRecipe uuidv4 recipe.(Recipe.ownerId) emptyPayload
             recipeStorage rng
           = (Err "Incomplete input data!", recipeStorage, rng)).
Proof.
  intros m k recipe K L. destruct (K _ _ L) as [I S]. split; [|split].
  - intros O.
    destruct (RevA_updateRecipe_owner m k recipe emptyPayload L S O)
      as (updated & E & ->%updatedFrom_emptyPayload).
    rewrite E, I. by rewrite insert_id.
  - destruct (RevB_updateRecipe_owner m k recipe emptyPayload L S)
      as (updated & E & ->%updatedFrom_emptyPayload).
    rewrite E, I. by rewrite insert_id.
  - done.
Qed.

Lemma updateRecipe_accepts_empty_payload_witness :
  keyedById banitsaStore
  ∧ banitsaStore !! banitsaId = Some banitsa
  ∧ RevA.updateRecipe banitsaId mariaId emptyPayload banitsaStore
    = (Ok banitsa, banitsaStore)
  ∧ RevB.updateRecipe banitsaId mariaId emptyPayload banitsaStore
    = (Ok banitsa, banitsaStore).
Proof.
  split; [exact banitsaStore_keyed|]. split; [exact banitsaStore_lookup|].
  destruct (updateRecipe_accepts_empty_payload banitsaStore banitsaId banitsa
              banitsaStore_keyed banitsaStore_lookup) as (A & B & _).
  split; [|exact B].
  exact (A (banitsaStore_owners _ _ banitsaStore_lookup)).
Defined.

(** ** Ownership *)

(** C1, as stated, asks for the unauthorized failure at every identity other
    than the owner's.  Revision A checks the format of the
    identity before it looks at the record, so an identity that is not
    UUID-shaped gets the invalid-id failure from [updateRecipe] and from
    [deleteRecipe] (the store is left alone). *)
Lemma malformed_identity_is_invalid_not_unauthorized :
  banitsaStore !! banitsaId = Some banitsa
  ∧ "mallory" ≠ banitsa.(Recipe.ownerId)
  ∧ RevA.updateRecipe banitsaId "mallory" renamePayload banitsaStore
    = (Err "Invalid recipe or owner ID for updating the recipe.", banitsaStore)
  ∧ RevA.updateRecipe banitsaId "mallory" renamePayload banitsaStore
    ≠ (Err "Only the owner of the recipe can update this recipe!", banitsaStore)
  ∧ RevA.deleteRecipe banitsaId "mallory" banitsaStore
    = (Err "Invalid recipe or owner ID for deleting an Recipe.", banitsaStore)
  ∧ RevA.deleteRecipe banitsaId "mallory" banitsaStore
    ≠ (Err "Only the owner can delete the recipe!", banitsaStore).
Proof.
  split; [exact banitsaStore_lookup|]. split; [done|].
  assert (RevA.updateRecipe banitsaId "mallory" renamePayload banitsaStore
          = (Err "Invalid recipe or owner ID for updating the recipe.", banitsaStore))
    as U by reflexivity.
  assert (RevA.deleteRecipe banitsaId "mallory" banitsaStore
          = (Err "Invalid recipe or owner ID for deleting an Recipe.", banitsaStore))
    as D by reflexivity.
  rewrite U, D. repeat split; intros [=].
Qed.

(** C1 (as amended): for a record stored under its UUID-shaped id and an
    identity other than its owner id, revision B's [updateRecipe] and
    [deleteRecipe] fail with the unauthorized message and leave the store
    unchanged, so the record is still there under its id; revision A's
    [updateRecipe] leaves the store unchanged and fails with the unauthorized
    message when the identity is UUID-shaped and with the invalid-id message
    when it is not; revision A's [deleteRecipe] fails with the invalid-id
    message and leaves the store unchanged when the identity is not
    UUID-shaped. *)
Theorem strangers_cannot_change_records :
  ∀ (recipeStorage : Storage) (recipeId : string) (recipe : Recipe)
    (identity : string) (payload : RecipePayload),
    keyedById recipeStorage →
    recipeStorage !! recipeId = Some recipe →
    identity ≠ recipe.(Recipe.ownerId) →
    RevB.updateRecipe recipeId identity payload recipeStorage
    = (Err "Only the owner of the recipe can update this recipe!", recipeStorage)
    ∧ RevB.deleteRecipe recipeId identity recipeStorage
      = (Err "Only the owner can delete the recipe!", recipeStorage)
    ∧ (RevB.deleteRecipe recipeId identity recipeStorage).2 !! recipeId = Some recipe
    ∧ (uuidShape identity →
       RevA.updateRecipe recipeId identity payload recipeStorage
       = (Err "Only the owner of the recipe can update this recipe!", recipeStorage))
    ∧ (¬ uuidShape identity →
       RevA.updateRecipe recipeId identity payload recipeStorage
       = (Err "Invalid recipe or owner ID for updating the recipe.", recipeStorage)
       ∧ RevA.deleteRecipe recipeId identity recipeStorage
         = (Err "Invalid recipe or owner ID for deleting an Recipe.", recipeStorage)).
Proof.
  intros m k recipe who payload K L N. destruct (K _ _ L) as [_ S].
  pose proof (RevA_updateRecipe_stranger m k recipe payload L S who N) as UA.
  pose proof (RevB_deleteRecipe_stranger m k recipe L S who N) as DB.
  split; [by apply (RevB_updateRecipe_stranger m k recipe)|].
  split; [exact DB|]. split; [by rewrite DB|]. split.
  - intros W. by rewrite UA, (RevA_valid _ W).
  - intros W%RevA_isValidUUID_false. split.
    + by rewrite UA, W.
    + by apply RevA_deleteRecipe_malformed.
Qed.

Lemma strangers_cannot_change_records_witness :
  keyedById banitsaStore
  ∧ banitsaStore !! banitsaId = Some banitsa
  ∧ ivanId ≠ banitsa.(Recipe.ownerId)
  ∧ RevB.updateRecipe banitsaId ivanId renamePayload banitsaStore
    = (Err "Only the owner of the recipe can update this recipe!", banitsaStore)
  ∧ RevB.deleteRecipe banitsaId ivanId banitsaStore
    = (Err "Only the owner can delete the recipe!", banitsaStore)
  ∧ RevA.updateRecipe banitsaId ivanId renamePayload banitsaStore
    = (Err "Only the owner of the recipe can update this recipe!", banitsaStore).
Proof.
  assert (ivanId ≠ banitsa.(Recipe.ownerId)) as N by (intros [=]).
  split; [exact banitsaStore_keyed|]. split; [exact banitsaStore_lookup|].
  split; [exact N|].
  destruct (strangers_cannot_change_records banitsaStore banitsaId banitsa ivanId
              renamePayload banitsaStore_keyed banitsaStore_lookup N)
    as (UB & DB & _ & UA & _).
  split; [exact UB|]. split; [exact DB|].
  apply UA. by apply uuidShape_of_test.
Defined.

(** What revision A's [deleteRecipe] does for a UUID-shaped identity that is
    not the owner's: it reports the unauthorized failure, and the record has
    been removed all the same.  Revision B, called the same way, keeps it. *)
Lemma RevA_deleteRecipe_removes_before_check :
  RevA.deleteRecipe banitsaId ivanId banitsaStore
  = (Err "Only the owner can delete the recipe!", ∅)
  ∧ RevA.getRecipeById banitsaId (RevA.deleteRecipe banitsaId ivanId banitsaStore).2
    = Err "Recipe with the provided id: 123e4567-e89b-42d3-a456-426614174000 has not been found!"
  ∧ RevB.deleteRecipe banitsaId ivanId banitsaStore
    = (Err "Only the owner can delete the recipe!", banitsaStore)
  ∧ RevB.getRecipeById banitsaId mariaId
      (RevB.deleteRecipe banitsaId ivanId banitsaStore).2
    = Ok banitsa.
Proof.
  assert (ivanId ≠ banitsa.(Recipe.ownerId)) as N by (intros [=]).
  assert (uuidShape banitsaId) as S by (by apply uuidShape_of_test).
  assert (uuidShape ivanId) as W by (by apply uuidShape_of_test).
  rewrite (RevA_deleteRecipe_stranger _ _ _ banitsaStore_lookup S _ N W).
  rewrite (RevB_deleteRecipe_stranger _ _ _ banitsaStore_lookup S _ N).
  unfold banitsaStore at 1 2. rewrite delete_singleton_eq.
  repeat split.
Qed.

(** * Further properties of the canister methods *)

Lemma twoRecipes_lookup_maria : twoRecipes !! banitsaId = Some banitsa.
Proof. unfold twoRecipes. rewrite lookup_insert_ne; [apply banitsaStore_lookup|done]. Qed.

Lemma twoRecipes_lookup_ivan : twoRecipes !! ivansRecipeId = Some ivansBanitsa.
Proof. apply lookup_insert_eq. Qed.

Lemma twoRecipes_keyed : keyedById twoRecipes.
Proof.
  apply (keyedById_insert banitsaStore ivansBanitsa); [apply banitsaStore_keyed|].
  by apply uuidShape_of_test.
Qed.

Lemma string_eqb_true (s t : string) : String.eqb s t = true ↔ s = t.
Proof. apply String.eqb_eq. Qed.

(** ** Reading one record *)

(** X1: revision A's [getRecipeById] answers in one of three ways.  An id
    that is not UUID-shaped gets the invalid-id message whatever the store
    holds; a UUID-shaped id without a record gets the not-found message that
    quotes the id; and the call returns [Ok] with a record exactly when the id
    is UUID-shaped and that record is stored under it, for any caller. *)
Theorem RevA_getRecipeById_cases :
  ∀ (recipeId : string) (recipeStorage : Storage),
    (¬ uuidShape recipeId →
     RevA.getRecipeById recipeId recipeStorage = Err "Invalid recipe ID")
    ∧ (uuidShape recipeId ∧ recipeStorage !! recipeId = None →
       RevA.getRecipeById recipeId recipeStorage
       = Err ("Recipe with the provided id: " +:+ recipeId +:+ " has not been found!"))
    ∧ (∀ recipe,
         RevA.getRecipeById recipeId recipeStorage = Ok recipe
         ↔ uuidShape recipeId ∧ recipeStorage !! recipeId = Some recipe).
Proof.
  intros k m. unfold RevA.getRecipeById, StableBTreeMap.get.
  destruct (RevA.isValidUUID k) eqn:V; simpl.
  - apply RevA_isValidUUID_shape in V. split; [done|]. split.
    + by intros [_ ->].
    + intros r. destruct (m !! k) as [r'|]; split.
      * by intros [= ->].
      * by intros [_ [= ->]].
      * done.
      * by intros [_ ?].
  - apply RevA_isValidUUID_false in V. split; [done|]. split.
    + by intros [? _].
    + intros r. split; [done|]. by intros [? _].
Qed.

(** X2: revision B's [getRecipeById] is an owner-only read.  After the same
    format check and lookup, a record whose [ownerId] differs from the
    requester id is refused with the unauthorized message, and the call returns
    [Ok] with a record exactly when the id is UUID-shaped, the record is stored
    under it and its [ownerId] is the requester id. *)
Theorem RevB_getRecipeById_cases :
  ∀ (recipeId requesterId : string) (recipeStorage : Storage),
    (¬ uuidShape recipeId →
     RevB.getRecipeById recipeId requesterId recipeStorage = Err "Invalid recipe ID")
    ∧ (uuidShape recipeId ∧ recipeStorage !! recipeId = None →
       RevB.getRecipeById recipeId requesterId recipeStorage
       = Err ("Recipe with the provided id: " +:+ recipeId +:+ " has not been found!"))
    ∧ (∀ recipe,
         uuidShape recipeId ∧ recipeStorage !! recipeId = Some recipe
         ∧ recipe.(Recipe.ownerId) ≠ requesterId →
         RevB.getRecipeById recipeId requesterId recipeStorage
         = Err "Unauthorized to access this recipe.")
    ∧ (∀ recipe,
         RevB.getRecipeById recipeId requesterId recipeStorage = Ok recipe
         ↔ uuidShape recipeId ∧ recipeStorage !! recipeId = Some recipe
           ∧ recipe.(Recipe.ownerId) = requesterId).
Proof.
  intros k who m. unfold RevB.getRecipeById, StableBTreeMap.get.
  destruct (RevB.isValidUUID k) eqn:V; simpl.
  - apply RevB_isValidUUID_shape in V. split; [done|]. split; [by intros [_ ->]|].
    split.
    + intros r (_ & -> & N). by rewrite string_eqb_false.
    + intros r. destruct (m !! k) as [r'|]; [|split; [done|by intros (_ & ? & _)]].
      destruct (String.eqb_spec (Recipe.ownerId r') who) as [E|N]; simpl; split.
      * by intros [= ->].
      * by intros (_ & [= ->] & _).
      * done.
      * intros (_ & [= ->] & E). by destruct N.
  - apply RevB_isValidUUID_false in V. split; [done|]. split; [by intros [? _]|].
    split; [by intros r (? & _)|]. intros r. split; [done|]. by intros [? _].
Qed.

(** ** Who may write *)

Lemma RevA_updateRecipe_store (k who : string) (payload : RecipePayload) (m : Storage) :
  (failed (RevA.updateRecipe k who payload m).1
   ∧ (RevA.updateRecipe k who payload m).2 = m)
  ∨ (∃ recipe updated,
       uuidShape k ∧ uuidShape who
       ∧ m !! k = Some recipe ∧ recipe.(Recipe.ownerId) = who
       ∧ updatedFrom payload recipe updated
       ∧ RevA.updateRecipe k who payload m
         = (Ok updated, <[recipe.(Recipe.id) := updated]> m)).
Proof.
  destruct (RevA.isValidUUID k) eqn:Vk; [destruct (RevA.isValidUUID who) eqn:Vw|].
  - apply RevA_isValidUUID_shape in Vk, Vw.
    destruct (m !! k) as [recipe|] eqn:L.
    + destruct (decide (who = Recipe.ownerId recipe)) as [->|N].
      * right. destruct (RevA_updateRecipe_owner m k recipe payload L Vk Vw)
          as (updated & E & F).
        by exists recipe, updated.
      * left. rewrite (RevA_updateRecipe_stranger m k recipe payload L Vk who N).
        split; [|done]. destruct (RevA.isValidUUID who); by eexists.
    + left. unfold RevA.updateRecipe, StableBTreeMap.get.
      rewrite (RevA_valid _ Vk), (RevA_valid _ Vw), L. simpl. split; [by eexists|done].
  - left. unfold RevA.updateRecipe. rewrite Vw, orb_true_r. split; [by eexists|done].
  - left. unfold RevA.updateRecipe. rewrite Vk. simpl. split; [by eexists|done].
Qed.

Lemma RevB_updateRecipe_store (k who : string) (payload : RecipePayload) (m : Storage) :
  (failed (RevB.updateRecipe k who payload m).1
   ∧ (RevB.updateRecipe k who payload m).2 = m)
  ∨ (∃ recipe updated,
       uuidShape k
       ∧ m !! k = Some recipe ∧ recipe.(Recipe.ownerId) = who
       ∧ updatedFrom payload recipe updated
       ∧ RevB.updateRecipe k who payload m
         = (Ok updated, <[recipe.(Recipe.id) := updated]> m)).
Proof.
  destruct (RevB.isValidUUID k) eqn:Vk.
  - apply RevB_isValidUUID_shape in Vk.
    destruct (m !! k) as [recipe|] eqn:L.
    + destruct (decide (who = Recipe.ownerId recipe)) as [->|N].
      * right. destruct (RevB_updateRecipe_owner m k recipe payload L Vk)
          as (updated & E & F).
        by exists recipe, updated.
      * left. rewrite (RevB_updateRecipe_stranger m k recipe payload L Vk who N).
        split; [by eexists|done].
    + left. unfold RevB.updateRecipe, StableBTreeMap.get.
      rewrite (RevB_valid _ Vk), L. simpl. split; [by eexists|done].
  - left. unfold RevB.updateRecipe. rewrite Vk. simpl. split; [by eexists|done].
Qed.

Lemma RevA_deleteRecipe_cases (k who : string) (m : Storage) :
  RevA.deleteRecipe k who m
  = if RevA.isValidUUID k && RevA.isValidUUID who
    then (match m !! k with
          | Some recipe =>
              if decide (recipe.(Recipe.ownerId) = who)
              then Ok recipe
              else Err "Only the owner can delete the recipe!"
          | None => Err ("Failed to delete recipe with id: " +:+ k)
          end, delete k m)
    else (Err "Invalid recipe or owner ID for deleting an Recipe.", m).
Proof.
  unfold RevA.deleteRecipe, StableBTreeMap.remove.
  destruct (RevA.isValidUUID k), (RevA.isValidUUID who); simpl; try done.
  destruct (m !! k) as [recipe|]; [|done].
  destruct (String.eqb_spec (Recipe.ownerId recipe) who); simpl; by case_decide.
Qed.

Lemma RevB_deleteRecipe_cases (k who : string) (m : Storage) :
  RevB.deleteRecipe k who m
  = if RevB.isValidUUID k
    then match m !! k with
         | Some recipe =>
             if decide (recipe.(Recipe.ownerId) = who)
             then (Ok recipe, delete k m)
             else (Err "Only the owner can delete the recipe!", m)
         | None => (Err ("Failed to delete recipe with id: " +:+ k), m)
         end
    else (Err "Invalid recipe ID for deleting a recipe.", m).
Proof.
  unfold RevB.deleteRecipe, StableBTreeMap.remove, StableBTreeMap.get.
  destruct (RevB.isValidUUID k); simpl; try done.
  destruct (m !! k) as [recipe|]; [|done].
  destruct (String.eqb_spec (Recipe.ownerId recipe) who); simpl; by case_decide.
Qed.

(** X3: [updateRecipe] and [deleteRecipe] succeed for the owner and for nobody
    else.  A call returns [Ok] exactly when the id is UUID-shaped, a record is
    stored under it and the supplied identity equals that record's [ownerId]
    (in revision A the identity must be UUID-shaped as well); [deleteRecipe]
    then returns the record that was stored. *)
Theorem writes_succeed_exactly_for_the_owner :
  ∀ (recipeId identity : string) (payload : RecipePayload) (recipeStorage : Storage),
    ((∃ updated, (RevA.updateRecipe recipeId identity payload recipeStorage).1 = Ok updated)
     ↔ uuidShape recipeId ∧ uuidShape identity
       ∧ ∃ recipe, recipeStorage !! recipeId = Some recipe
                   ∧ recipe.(Recipe.ownerId) = identity)
    ∧ ((∃ updated, (RevB.updateRecipe recipeId identity payload recipeStorage).1 = Ok updated)
       ↔ uuidShape recipeId
         ∧ ∃ recipe, recipeStorage !! recipeId = Some recipe
                     ∧ recipe.(Recipe.ownerId) = identity)
    ∧ (∀ recipe,
         (RevA.deleteRecipe recipeId identity recipeStorage).1 = Ok recipe
         ↔ uuidShape recipeId ∧ uuidShape identity
           ∧ recipeStorage !! recipeId = Some recipe
           ∧ recipe.(Recipe.ownerId) = identity)
    ∧ (∀ recipe,
         (RevB.deleteRecipe recipeId identity recipeStorage).1 = Ok recipe
         ↔ uuidShape recipeId
           ∧ recipeStorage !! recipeId = Some recipe
           ∧ recipe.(Recipe.ownerId) = identity).
Proof.
  intros k who payload m. split; [|split; [|split]].
  - split.
    + intros [u E].
      destruct (RevA_updateRecipe_store k who payload m)
        as [[[msg F] _]|(recipe & updated & Sk & Sw & L & O & _ & _)].
      * rewrite F in E. discriminate E.
      * eauto.
    + intros (Sk & Sw & recipe & L & <-).
      destruct (RevA_updateRecipe_owner m k recipe payload L Sk Sw) as (u & E & _).
      exists u. by rewrite E.
  - split.
    + intros [u E].
      destruct (RevB_updateRecipe_store k who payload m)
        as [[[msg F] _]|(recipe & updated & Sk & L & O & _ & _)].
      * rewrite F in E. discriminate E.
      * eauto.
    + intros (Sk & recipe & L & <-).
      destruct (RevB_updateRecipe_owner m k recipe payload L Sk) as (u & E & _).
      exists u. by rewrite E.
  - intros recipe. rewrite RevA_deleteRecipe_cases.
    rewrite <- !RevA_isValidUUID_shape.
    destruct (RevA.isValidUUID k), (RevA.isValidUUID who); simpl;
      try (split; [done|by intros (? & ? & _)]).
    destruct (m !! k) as [r|]; [|split; [done|by intros (_ & _ & ? & _)]].
    case_decide as O; split.
    + by intros [= ->].
    + by intros (_ & _ & [= ->] & _).
    + done.
    + intros (_ & _ & [= ->] & ?). by destruct O.
  - intros recipe. rewrite RevB_deleteRecipe_cases.
    rewrite <- !RevB_isValidUUID_shape.
    destruct (RevB.isValidUUID k); simpl; [|split; [done|by intros (? & _)]].
    destruct (m !! k) as [r|]; [|split; [done|by intros (_ & ? & _)]].
    case_decide as O; simpl; split.
    + by intros [= ->].
    + by intros (_ & [= ->] & _).
    + done.
    + intros (_ & [= ->] & ?). by destruct O.
Qed.

(** X4: a call that fails changes nothing, with one exception.  Whenever
    [createRecipe] or [updateRecipe] of either revision, or [deleteRecipe] of
    revision B, returns [Err], the store is exactly what it was before the
    call, also when the failure is a throw of [uuidv4()] that [createRecipe]
    caught.  The random source is where it was as well, unless revision A's
    first [uuidv4()] call returned and its second threw.  Revision A's
    [deleteRecipe] is the exception: see [RevA_deleteRecipe_removes_first]. *)
Theorem failed_calls_change_nothing :
  ∀ (Rng : Type) (uuidv4 : Rng → option (string * Rng)) (recipeId identity : string)
    (payload : RecipePayload) (recipeStorage : Storage) (rng : Rng),
    (failed (RevA.createRecipe uuidv4 payload recipeStorage rng).1.1 →
     (RevA.createRecipe uuidv4 payload recipeStorage rng).1.2 = recipeStorage
     ∧ ((∀ drawn rng1, uuidv4 rng = Some (drawn, rng1) → uuidv4 rng1 ≠ None) →
        (RevA.createRecipe uuidv4 payload recipeStorage rng).2 = rng))
    ∧ (failed (RevB.createRecipe uuidv4 identity payload recipeStorage rng).1.1 →
       (RevB.createRecipe uuidv4 identity payload recipeStorage rng).1.2 = recipeStorage
       ∧ (RevB.createRecipe uuidv4 identity payload recipeStorage rng).2 = rng)
    ∧ (failed (RevA.updateRecipe recipeId identity payload recipeStorage).1 →
       (RevA.updateRecipe recipeId identity payload recipeStorage).2 = recipeStorage)
    ∧ (failed (RevB.updateRecipe recipeId identity payload recipeStorage).1 →
       (RevB.updateRecipe recipeId identity payload recipeStorage).2 = recipeStorage)
    ∧ (failed (RevB.deleteRecipe recipeId identity recipeStorage).1 →
       (RevB.deleteRecipe recipeId identity recipeStorage).2 = recipeStorage).
Proof.
  intros Rng uuidv4 k who payload m rng. split; [|split; [|split; [|split]]].
  - unfold RevA.createRecipe. destruct (_ || _); [done|].
    destruct (uuidv4 rng) as [[i r1]|] eqn:E1; [|done].
    destruct (uuidv4 r1) as [[o r2]|] eqn:E2; simpl.
    + by intros [msg [=]].
    + intros _. split; [done|]. intros N. by destruct (N i r1 eq_refl).
  - unfold RevB.createRecipe. destruct (_ || _); [done|].
    destruct (uuidv4 rng) as [[i r1]|]; [|done]. simpl. by intros [msg [=]].
  - destruct (RevA_updateRecipe_store k who payload m)
      as [[_ E]|(recipe & updated & _ & _ & _ & _ & _ & E)]; [done|].
    rewrite E. by intros [msg [=]].
  - destruct (RevB_updateRecipe_store k who payload m)
      as [[_ E]|(recipe & updated & _ & _ & _ & _ & E)]; [done|].
    rewrite E. by intros [msg [=]].
  - rewrite RevB_deleteRecipe_cases. destruct (RevB.isValidUUID k); [|done].
    destruct (m !! k); [|done]. case_decide; [|done]. by intros [msg [=]].
Qed.

(** X5: revision A's [deleteRecipe] removes first and asks afterwards.  With a
    UUID-shaped record id and a UUID-shaped identity, the store after the call
    is the store without that id, whoever the caller is; when the caller is
    not the owner the call still reports the unauthorized failure. *)
Theorem RevA_deleteRecipe_removes_first :
  ∀ (recipeId identity : string) (recipeStorage : Storage),
    uuidShape recipeId → uuidShape identity →
    (RevA.deleteRecipe recipeId identity recipeStorage).2 = delete recipeId recipeStorage
    ∧ (RevA.deleteRecipe recipeId identity recipeStorage).2 !! recipeId = None
    ∧ (∀ recipe, recipeStorage !! recipeId = Some recipe →
         recipe.(Recipe.ownerId) ≠ identity →
         (RevA.deleteRecipe recipeId identity recipeStorage).1
         = Err "Only the owner can delete the recipe!"
         ∧ size recipeStorage
           = S (size (RevA.deleteRecipe recipeId identity recipeStorage).2)).
Proof.
  intros k who m Sk Sw. rewrite RevA_deleteRecipe_cases.
  rewrite (RevA_valid _ Sk), (RevA_valid _ Sw). simpl.
  split; [done|]. split; [apply lookup_delete_eq|].
  intros recipe L N. rewrite L. rewrite decide_False by done.
  split; [done|]. rewrite <- (insert_delete_id m k recipe L) at 1.
  apply map_size_insert_None, lookup_delete_eq.
Qed.

Lemma RevA_deleteRecipe_removes_first_witness :
  uuidShape banitsaId ∧ uuidShape ivanId
  ∧ (RevA.deleteRecipe banitsaId ivanId banitsaStore).1
    = Err "Only the owner can delete the recipe!"
  ∧ (RevA.deleteRecipe banitsaId ivanId banitsaStore).2 !! banitsaId = None.
Proof.
  assert (uuidShape banitsaId) as Sk by (by apply uuidShape_of_test).
  assert (uuidShape ivanId) as Sw by (by apply uuidShape_of_test).
  split; [exact Sk|]. split; [exact Sw|].
  destruct (RevA_deleteRecipe_removes_first banitsaId ivanId banitsaStore Sk Sw)
    as (_ & G & F).
  split; [|exact G].
  refine (proj1 (F banitsa banitsaStore_lookup _)). intros [=].
Defined.

(** ** Deleting as the owner *)

(** X6: when the owner deletes a stored record, [deleteRecipe] returns that
    record and the store loses exactly that key, so it is one record smaller;
    afterwards [getRecipeById] gives the not-found message for the id (to any
    requester) and a second [deleteRecipe] fails with its own not-found
    message and changes nothing. *)
Theorem deleteRecipe_by_the_owner :
  ∀ (recipeStorage : Storage) (recipeId : string) (recipe : Recipe),
    recipeStorage !! recipeId = Some recipe →
    uuidShape recipeId →
    RevB.deleteRecipe recipeId recipe.(Recipe.ownerId) recipeStorage
    = (Ok recipe, delete recipeId recipeStorage)
    ∧ (uuidShape recipe.(Recipe.ownerId) →
       RevA.deleteRecipe recipeId recipe.(Recipe.ownerId) recipeStorage
       = (Ok recipe, delete recipeId recipeStorage)
       ∧ RevA.deleteRecipe recipeId recipe.(Recipe.ownerId)
           (delete recipeId recipeStorage)
         = (Err ("Failed to delete recipe with id: " +:+ recipeId),
            delete recipeId recipeStorage))
    ∧ size recipeStorage = S (size (delete recipeId recipeStorage))
    ∧ (∀ other, other ≠ recipeId →
         delete recipeId recipeStorage !! other = recipeStorage !! other)
    ∧ RevA.getRecipeById recipeId (delete recipeId recipeStorage)
      = Err ("Recipe with the provided id: " +:+ recipeId +:+ " has not been found!")
    ∧ (∀ requesterId,
         RevB.getRecipeById recipeId requesterId (delete recipeId recipeStorage)
         = Err ("Recipe with the provided id: " +:+ recipeId +:+ " has not been found!"))
    ∧ RevB.deleteRecipe recipeId recipe.(Recipe.ownerId) (delete recipeId recipeStorage)
      = (Err ("Failed to delete recipe with id: " +:+ recipeId),
         delete recipeId recipeStorage).
Proof.
  intros m k recipe L Sk.
  split; [|split; [|split; [|split; [|split; [|split]]]]].
  - rewrite RevB_deleteRecipe_cases, (RevB_valid _ Sk), L. by rewrite decide_True.
  - intros So. rewrite !RevA_deleteRecipe_cases, (RevA_valid _ Sk), (RevA_valid _ So).
    simpl. rewrite L, lookup_delete_eq, decide_True by done.
    by rewrite delete_delete_eq.
  - rewrite <- (insert_delete_id m k recipe L) at 1.
    apply map_size_insert_None, lookup_delete_eq.
  - intros other N. by apply lookup_delete_ne.
  - unfold RevA.getRecipeById, StableBTreeMap.get.
    by rewrite (RevA_valid _ Sk), lookup_delete_eq.
  - intros who. unfold RevB.getRecipeById, StableBTreeMap.get.
    by rewrite (RevB_valid _ Sk), lookup_delete_eq.
  - by rewrite RevB_deleteRecipe_cases, (RevB_valid _ Sk), lookup_delete_eq.
Qed.

Lemma deleteRecipe_by_the_owner_witness :
  twoRecipes !! banitsaId = Some banitsa
  ∧ uuidShape banitsaId
  ∧ RevB.deleteRecipe banitsaId mariaId twoRecipes = (Ok banitsa, delete banitsaId twoRecipes)
  ∧ delete banitsaId twoRecipes !! ivansRecipeId = Some ivansBanitsa.
Proof.
  assert (uuidShape banitsaId) as Sk by (by apply uuidShape_of_test).
  split; [exact twoRecipes_lookup_maria|]. split; [exact Sk|].
  destruct (deleteRecipe_by_the_owner twoRecipes banitsaId banitsa
              twoRecipes_lookup_maria Sk) as (D & _ & _ & F & _).
  split; [exact D|].
  rewrite (F ivansRecipeId); [exact twoRecipes_lookup_ivan|]. intros [=].
Defined.

(** ** What a write leaves alone *)

(** X7: a write touches one key.  On a store whose records sit under their own
    ids, [updateRecipe] and [deleteRecipe] of either revision leave every
    record under another id than the one passed exactly as it was, whatever
    the identity, the payload and the outcome; [createRecipe] leaves alone
    every id other than the one it draws, and every id when [uuidv4()]
    throws. *)
Theorem writes_touch_one_key :
  ∀ (Rng : Type) (uuidv4 : Rng → option (string * Rng)) (recipeStorage : Storage)
    (recipeId identity other : string) (payload : RecipePayload) (rng : Rng),
    keyedById recipeStorage →
    other ≠ recipeId →
    (RevA.updateRecipe recipeId identity payload recipeStorage).2 !! other
    = recipeStorage !! other
    ∧ (RevB.updateRecipe recipeId identity payload recipeStorage).2 !! other
      = recipeStorage !! other
    ∧ (RevA.deleteRecipe recipeId identity recipeStorage).2 !! other
      = recipeStorage !! other
    ∧ (RevB.deleteRecipe recipeId identity recipeStorage).2 !! other
      = recipeStorage !! other
    ∧ ((∀ drawn rng1, uuidv4 rng = Some (drawn, rng1) → other ≠ drawn) →
       (RevA.createRecipe uuidv4 payload recipeStorage rng).1.2 !! other
       = recipeStorage !! other
       ∧ (RevB.createRecipe uuidv4 identity payload recipeStorage rng).1.2 !! other
         = recipeStorage !! other).
Proof.
  intros Rng uuidv4 m k who other payload rng K N.
  split; [|split; [|split; [|split]]].
  - destruct (RevA_updateRecipe_store k who payload m)
      as [[_ ->]|(recipe & updated & _ & _ & L & _ & _ & ->)]; [done|].
    destruct (K _ _ L) as [-> _]. simpl. by rewrite lookup_insert_ne.
  - destruct (RevB_updateRecipe_store k who payload m)
      as [[_ ->]|(recipe & updated & _ & L & _ & _ & ->)]; [done|].
    destruct (K _ _ L) as [-> _]. simpl. by rewrite lookup_insert_ne.
  - rewrite RevA_deleteRecipe_cases. destruct (_ && _); [|done].
    simpl. by rewrite lookup_delete_ne.
  - rewrite RevB_deleteRecipe_cases. destruct (RevB.isValidUUID k); [|done].
    destruct (m !! k); [|done]. case_decide; [|done]. simpl.
    by rewrite lookup_delete_ne.
  - intros Ni. split.
    + unfold RevA.createRecipe. destruct (_ || _); [done|].
      destruct (uuidv4 rng) as [[i r1]|]; [|done].
      destruct (uuidv4 r1) as [[o r2]|]; [|done]. simpl.
      unfold StableBTreeMap.insert. rewrite lookup_insert_ne; [done|].
      intros <-. by destruct (Ni i r1).
    + unfold RevB.createRecipe. destruct (_ || _); [done|].
      destruct (uuidv4 rng) as [[i r1]|]; [|done]. simpl.
      unfold StableBTreeMap.insert. rewrite lookup_insert_ne; [done|].
      intros <-. by destruct (Ni i r1).
Qed.

Lemma writes_touch_one_key_witness :
  keyedById twoRecipes ∧ ivansRecipeId ≠ banitsaId
  ∧ (RevA.updateRecipe banitsaId mariaId renamePayload twoRecipes).2 !! ivansRecipeId
    = Some ivansBanitsa
  ∧ (RevA.deleteRecipe banitsaId ivanId twoRecipes).2 !! ivansRecipeId
    = Some ivansBanitsa.
Proof.
  assert (ivansRecipeId ≠ banitsaId) as N by (intros [=]).
  split; [exact twoRecipes_keyed|]. split; [exact N|].
  destruct (writes_touch_one_key bool (JS.returning alternatingUuidv4) twoRecipes banitsaId mariaId
              ivansRecipeId renamePayload true twoRecipes_keyed N) as (U & _).
  destruct (writes_touch_one_key bool (JS.returning alternatingUuidv4) twoRecipes banitsaId ivanId
              ivansRecipeId renamePayload true twoRecipes_keyed N) as (_ & _ & D & _).
  split.
  - rewrite U. exact twoRecipes_lookup_ivan.
  - rewrite D. exact twoRecipes_lookup_ivan.
Defined.

(** X8: [updateRecipe] neither adds nor removes records and never changes an
    id or an owner.  On a store whose records sit under their own ids, after
    any call of either revision the store has the same keys, and every key
    still holds a record with the id and the [ownerId] it held before. *)
Theorem updateRecipe_keeps_keys_and_owners :
  ∀ (recipeStorage : Storage) (recipeId identity : string) (payload : RecipePayload),
    keyedById recipeStorage →
    (dom (RevA.updateRecipe recipeId identity payload recipeStorage).2
     = dom recipeStorage
     ∧ ∀ k recipe, recipeStorage !! k = Some recipe →
         ∃ after,
           (RevA.updateRecipe recipeId identity payload recipeStorage).2 !! k
           = Some after
           ∧ after.(Recipe.id) = recipe.(Recipe.id)
           ∧ after.(Recipe.ownerId) = recipe.(Recipe.ownerId))
    ∧ (dom (RevB.updateRecipe recipeId identity payload recipeStorage).2
       = dom recipeStorage
       ∧ ∀ k recipe, recipeStorage !! k = Some recipe →
           ∃ after,
             (RevB.updateRecipe recipeId identity payload recipeStorage).2 !! k
             = Some after
             ∧ after.(Recipe.id) = recipe.(Recipe.id)
             ∧ after.(Recipe.ownerId) = recipe.(Recipe.ownerId)).
Proof.
  intros m k who payload K.
  assert (∀ (recipe updated : Recipe),
            m !! k = Some recipe → updatedFrom payload recipe updated →
            dom (<[Recipe.id recipe := updated]> m) = dom m
            ∧ ∀ k' r, m !! k' = Some r →
                ∃ after, <[Recipe.id recipe := updated]> m !! k' = Some after
                         ∧ Recipe.id after = Recipe.id r
                         ∧ Recipe.ownerId after = Recipe.ownerId r) as Step.
  { intros recipe updated L (_ & _ & _ & _ & _ & I & O).
    destruct (K _ _ L) as [Ik _]. rewrite Ik. split.
    - apply dom_insert_lookup_L. by eexists.
    - intros k' r L'. destruct (decide (k = k')) as [<-|N].
      + exists updated. rewrite lookup_insert_eq. split; [done|]. by simplify_eq.
      + exists r. by rewrite lookup_insert_ne. }
  split.
  - destruct (RevA_updateRecipe_store k who payload m)
      as [[_ ->]|(recipe & updated & _ & _ & L & _ & F & ->)]; [by eauto|].
    by apply Step.
  - destruct (RevB_updateRecipe_store k who payload m)
      as [[_ ->]|(recipe & updated & _ & L & _ & F & ->)]; [by eauto|].
    by apply Step.
Qed.

Lemma updateRecipe_keeps_keys_and_owners_witness :
  keyedById twoRecipes
  ∧ dom (RevB.updateRecipe banitsaId mariaId renamePayload twoRecipes).2 = dom twoRecipes
  ∧ ∃ after,
      (RevB.updateRecipe banitsaId mariaId renamePayload twoRecipes).2 !! banitsaId
      = Some after
      ∧ after.(Recipe.ownerId) = mariaId.
Proof.
  split; [exact twoRecipes_keyed|].
  destruct (updateRecipe_keeps_keys_and_owners twoRecipes banitsaId mariaId
              renamePayload twoRecipes_keyed) as (_ & D & F).
  split; [exact D|].
  destruct (F banitsaId banitsa twoRecipes_lookup_maria) as (after & L & _ & O).
  exists after. split; [exact L|exact O].
Defined.

(** ** Stores the canister can reach *)

(** X9: the invariants of the store.  If [uuidv4] only gives UUID-shaped
    strings then, after any sequence of [createRecipe], [updateRecipe] and
    [deleteRecipe] calls on the empty store, with any arguments, every record
    is stored under its own [id] and that id is UUID-shaped, in both
    revisions; in revision A every [ownerId] is UUID-shaped too.  Calls in
    which [uuidv4()] throws are among them. *)
Theorem reachable_stores_are_keyed_by_id :
  ∀ (Rng : Type) (uuidv4 : Rng → option (string * Rng)),
    drawsUuids uuidv4 →
    ∀ (callsA : list RevA.Call) (callsB : list RevB.Call) (rng : Rng),
      keyedById (RevA.run uuidv4 callsA (∅, rng)).1
      ∧ ownersShaped (RevA.run uuidv4 callsA (∅, rng)).1
      ∧ keyedById (RevB.run uuidv4 callsB (∅, rng)).1.
Proof.
  intros Rng uuidv4 U callsA callsB rng.
  destruct (RevA_run_inv uuidv4 U callsA rng) as [K O].
  split; [exact K|]. split; [exact O|]. by apply RevB_run_inv.
Qed.

Lemma reachable_stores_are_keyed_by_id_witness :
  drawsUuids (JS.returning alternatingUuidv4)
  ∧ keyedById scenarioStore
  ∧ keyedById (RevA.run (JS.returning alternatingUuidv4)
                 [RevA.CreateRecipe banitsaPayload;
                  RevA.DeleteRecipe banitsaId ivanId;
                  RevA.CreateRecipe banitsaLowerPayload] (∅, true)).1.
Proof.
  pose proof (returning_drawsUuids alternatingUuidv4 alternatingUuidv4_shape) as U.
  split; [exact U|].
  split.
  - exact (proj2 (proj2 (reachable_stores_are_keyed_by_id bool
                           (JS.returning alternatingUuidv4) U []
                           [RevB.CreateRecipe mariaId banitsaPayload;
                            RevB.CreateRecipe ivanId banitsaLowerPayload] true))).
  - exact (proj1 (reachable_stores_are_keyed_by_id bool
                    (JS.returning alternatingUuidv4) U
                    [RevA.CreateRecipe banitsaPayload;
                     RevA.DeleteRecipe banitsaId ivanId;
                     RevA.CreateRecipe banitsaLowerPayload] [] true)).
Defined.

(** ** Listing by owner *)

(** X10: [getOwnersRecipesById] validates the owner id and then matches it
    exactly.  An owner id that is not UUID-shaped gets the invalid-owner-id
    message; a UUID-shaped one gets [Ok] with exactly the stored records whose
    [ownerId] equals it when there is one, and the empty-result message when
    there is none.  Revision B takes a requester id and never looks at it. *)
Theorem getOwnersRecipesById_cases :
  ∀ (ownerId requesterId : string) (recipeStorage : Storage),
    (¬ uuidShape ownerId →
     RevA.getOwnersRecipesById ownerId recipeStorage = Err "Invalid owner ID"
     ∧ RevB.getOwnersRecipesById ownerId requesterId recipeStorage
       = Err "Invalid owner ID")
    ∧ (uuidShape ownerId →
       ((∀ recipe, stored recipeStorage recipe → recipe.(Recipe.ownerId) ≠ ownerId) →
        RevA.getOwnersRecipesById ownerId recipeStorage
        = Err "There are no recipes available by this owner/chef."
        ∧ RevB.getOwnersRecipesById ownerId requesterId recipeStorage
          = Err "There are no recipes available by this owner/chef.")
       ∧ (∀ recipe, stored recipeStorage recipe → recipe.(Recipe.ownerId) = ownerId →
            ∃ result,
              RevA.getOwnersRecipesById ownerId recipeStorage = Ok result
              ∧ RevB.getOwnersRecipesById ownerId requesterId recipeStorage = Ok result
              ∧ recipe ∈ result
              ∧ ∀ r, r ∈ result ↔ stored recipeStorage r ∧ r.(Recipe.ownerId) = ownerId)).
Proof.
  intros owner who m. unfold RevA.getOwnersRecipesById, RevB.getOwnersRecipesById.
  split.
  - intros N. by rewrite (proj2 (RevA_isValidUUID_false _) N),
      (proj2 (RevB_isValidUUID_false _) N).
  - intros S. rewrite (RevA_valid _ S), (RevB_valid _ S). simpl. split.
    + intros N.
      assert ((length (filter (λ recipe : Recipe, Recipe.ownerId recipe = owner)
                         (StableBTreeMap.values m)) =? 0) = true) as ->; [|done].
      by apply scan_none.
    + intros recipe Hs Ho. eexists. rewrite (scan_some _ m recipe Hs Ho).
      split; [reflexivity|]. split; [reflexivity|]. split.
      * by apply scan_elem_of.
      * intros r. apply scan_elem_of.
Qed.

(** X11: [getRecipesByOwnersName] matches the owner name exactly, letter case
    included, and validates nothing.  It returns [Ok] with exactly the stored
    records whose [ownerName] is the query string when there is one, and the
    empty-result message otherwise, so a query that differs from every stored
    owner name, if only in letter case, finds nothing. *)
Theorem getRecipesByOwnersName_cases :
  ∀ (ownerName requesterId : string) (recipeStorage : Storage),
    ((∀ recipe, stored recipeStorage recipe → recipe.(Recipe.ownerName) ≠ ownerName) →
     RevA.getRecipesByOwnersName ownerName recipeStorage
     = Err "There are no recipes available by this owner/chef."
     ∧ RevB.getRecipesByOwnersName ownerName requesterId recipeStorage
       = Err "There are no recipes available by this owner/chef.")
    ∧ (∀ recipe, stored recipeStorage recipe → recipe.(Recipe.ownerName) = ownerName →
         ∃ result,
           RevA.getRecipesByOwnersName ownerName recipeStorage = Ok result
           ∧ RevB.getRecipesByOwnersName ownerName requesterId recipeStorage = Ok result
           ∧ recipe ∈ result
           ∧ ∀ r, r ∈ result ↔ stored recipeStorage r ∧ r.(Recipe.ownerName) = ownerName).
Proof.
  intros name who m. unfold RevA.getRecipesByOwnersName, RevB.getRecipesByOwnersName.
  split.
  - intros N.
    assert ((length (filter (λ recipe : Recipe, Recipe.ownerName recipe = name)
                       (StableBTreeMap.values m)) =? 0) = true) as ->; [|done].
    by apply scan_none.
  - intros recipe Hs Ho. eexists. rewrite (scan_some _ m recipe Hs Ho).
    split; [reflexivity|]. split; [reflexivity|]. split.
    + by apply scan_elem_of.
    + intros r. apply scan_elem_of.
Qed.

Lemma getRecipesByOwnersName_cases_witness :
  RevA.getRecipesByOwnersName "maria" banitsaStore
  = Err "There are no recipes available by this owner/chef."
  ∧ ∃ result,
      RevA.getRecipesByOwnersName "Maria" banitsaStore = Ok result ∧ banitsa ∈ result.
Proof.
  split.
  - refine (proj1 (proj1 (getRecipesByOwnersName_cases "maria" "" banitsaStore) _)).
    intros r [k L]. unfold banitsaStore in L.
    apply lookup_singleton_Some in L as [_ <-]. intros [=].
  - destruct (proj2 (getRecipesByOwnersName_cases "Maria" "" banitsaStore) banitsa)
      as (result & E & _ & Hin & _).
    + exists banitsaId. exact banitsaStore_lookup.
    + reflexivity.
    + exists result. split; [exact E|exact Hin].
Defined.

(** ** What every query returns *)

Lemma scan_answers (m : Storage) (P : Recipe → Prop) `{!∀ r, Decision (P r)}
  (message : string) :
  answersWithRecords m
    (if length (filter P (StableBTreeMap.values m)) =? 0
     then Err message else Ok (filter P (StableBTreeMap.values m))).
Proof.
  intros result. destruct (length _ =? 0) eqn:E; [done|]. intros [= <-]. split.
  - intros N. by rewrite N in E.
  - apply sublist_filter.
Qed.

(** X12: no query ever returns an empty list, and none returns a record that
    is not stored.  Whenever one of the six list-returning methods of either
    revision returns [Ok], the list is not empty and is a sublist of what
    [values()] lists, in that order. *)
Theorem queries_answer_with_stored_records :
  ∀ (unicodeLower : string → string) (query requesterId : string)
    (recipeStorage : Storage),
    answersWithRecords recipeStorage (RevA.getAllRecipes recipeStorage)
    ∧ answersWithRecords recipeStorage (RevA.getRecipeByName unicodeLower query recipeStorage)
    ∧ answersWithRecords recipeStorage (RevA.getOwnersRecipesById query recipeStorage)
    ∧ answersWithRecords recipeStorage (RevA.getRecipesByOwnersName query recipeStorage)
    ∧ answersWithRecords recipeStorage (RevA.getRecipesByType unicodeLower query recipeStorage)
    ∧ answersWithRecords recipeStorage (RevB.getAllRecipes recipeStorage)
    ∧ answersWithRecords recipeStorage (RevB.getRecipeByName unicodeLower query recipeStorage)
    ∧ answersWithRecords recipeStorage
        (RevB.getOwnersRecipesById query requesterId recipeStorage)
    ∧ answersWithRecords recipeStorage
        (RevB.getRecipesByOwnersName query requesterId recipeStorage)
    ∧ answersWithRecords recipeStorage (RevB.getRecipesByType unicodeLower query recipeStorage).
Proof.
  intros unicodeLower q who m.
  assert (∀ message,
            answersWithRecords m
              (if length (StableBTreeMap.values m) =? 0
               then Err message else Ok (StableBTreeMap.values m))) as All.
  { intros message result. destruct (length _ =? 0) eqn:E; [done|].
    intros [= <-]. split; [|done]. intros N. by rewrite N in E. }
  unfold RevA.getOwnersRecipesById, RevB.getOwnersRecipesById.
  split_and!.
  - apply All.
  - apply scan_answers.
  - destruct (negb (RevA.isValidUUID q)); [done|]. apply scan_answers.
  - apply scan_answers.
  - apply scan_answers.
  - apply All.
  - apply scan_answers.
  - destruct (negb (RevB.isValidUUID q)); [done|]. apply scan_answers.
  - apply scan_answers.
  - apply scan_answers.
Qed.

(** ** Identifiers *)

Ltac explode_group g L :=
  simpl in L;
  repeat (destruct g as [|? g]; [discriminate L|]; simpl in L);
  destruct g; [|discriminate L].

(** X13: every string [isValidUUID] accepts has exactly 36 characters, with
    dashes at the indexes 8, 13, 18 and 23; a longer or shorter string is
    never taken for an id. *)
Theorem isValidUUID_length :
  ∀ s, RevA.isValidUUID s = true ∨ RevB.isValidUUID s = true →
    String.length s = 36
    ∧ String.get 8 s = Some "-"%char
    ∧ String.get 13 s = Some "-"%char
    ∧ String.get 18 s = Some "-"%char
    ∧ String.get 23 s = Some "-"%char.
Proof.
  intros s H.
  assert (uuidShape s) as (g1 & g2 & g3 & g4 & g5 & -> & [L1 _] & [L2 _] & [L3 _]
                           & [L4 _] & [L5 _]).
  { destruct H as [H|H]; [by apply RevA_isValidUUID_shape|by apply RevB_isValidUUID_shape]. }
  explode_group g1 L1. explode_group g2 L2. explode_group g3 L3.
  explode_group g4 L4. explode_group g5 L5.
  repeat split.
Qed.

Lemma isValidUUID_length_witness :
  String.length banitsaId = 36 ∧ String.get 8 banitsaId = Some "-"%char.
Proof.
  destruct (isValidUUID_length banitsaId (or_introl eq_refl)) as (L & D & _).
  split; [exact L|exact D].
Defined.

(** ** Creating and then using a record *)

(** X14: revision B never validates the requester id it stores as owner.  A
    requester id that is not UUID-shaped creates a record all the same and can
    read it back with [getRecipeById] and delete it, but
    [getOwnersRecipesById] rejects that owner id as invalid for every
    requester, so the record cannot be listed by its owner id. *)
Theorem RevB_owner_id_is_not_validated :
  ∀ (Rng : Type) (uuidv4 : Rng → string * Rng),
    givesUuids uuidv4 →
    ∀ (requesterId : string) (payload : RecipePayload) (recipeStorage : Storage)
      (rng : Rng),
      ¬ uuidShape requesterId → complete payload →
      ∃ recipe recipeStorage' rng',
        RevB.createRecipe (JS.returning uuidv4) requesterId payload recipeStorage rng
        = (Ok recipe, recipeStorage', rng')
        ∧ recipe.(Recipe.ownerId) = requesterId
        ∧ RevB.getRecipeById recipe.(Recipe.id) requesterId recipeStorage' = Ok recipe
        ∧ (∀ anyone,
             RevB.getOwnersRecipesById requesterId anyone recipeStorage'
             = Err "Invalid owner ID")
        ∧ RevB.deleteRecipe recipe.(Recipe.id) requesterId recipeStorage'
          = (Ok recipe, delete recipe.(Recipe.id) recipeStorage').
Proof.
  intros Rng uuidv4 U who payload m rng N C.
  destruct (RevB_createRecipe_complete uuidv4 who payload m rng C)
    as (recipe & E & _ & I & O).
  assert (uuidShape (Recipe.id recipe)) as S by (rewrite I; apply U).
  eexists recipe, _, _. split; [exact E|]. split; [exact O|]. split; [|split].
  - unfold RevB.getRecipeById, StableBTreeMap.get.
    rewrite (RevB_valid _ S), lookup_insert_eq. simpl.
    by rewrite O, string_eqb_refl.
  - intros anyone. unfold RevB.getOwnersRecipesById.
    by rewrite (proj2 (RevB_isValidUUID_false _) N).
  - rewrite RevB_deleteRecipe_cases, (RevB_valid _ S), lookup_insert_eq.
    by rewrite decide_True.
Qed.

Lemma RevB_owner_id_is_not_validated_witness :
  givesUuids alternatingUuidv4 ∧ ¬ uuidShape "maria" ∧ complete banitsaPayload
  ∧ ∃ recipe recipeStorage' rng',
      RevB.createRecipe (JS.returning alternatingUuidv4) "maria" banitsaPayload ∅ true
      = (Ok recipe, recipeStorage', rng')
      ∧ RevB.getOwnersRecipesById "maria" "maria" recipeStorage' = Err "Invalid owner ID".
Proof.
  assert (¬ uuidShape "maria") as N by (by apply RevA_isValidUUID_false).
  split; [exact alternatingUuidv4_shape|]. split; [exact N|].
  split; [exact banitsaPayload_complete|].
  destruct (RevB_owner_id_is_not_validated bool alternatingUuidv4
              alternatingUuidv4_shape "maria" banitsaPayload ∅ true N
              banitsaPayload_complete)
    as (recipe & m' & rng' & E & _ & _ & L & _).
  exists recipe, m', rng'. split; [exact E|exact (L "maria")].
Defined.

(** X15: [createRecipe] does not check whether the id it draws is in use.
    When [uuidv4] returns the id of a stored record, the call succeeds all the
    same: the new record replaces the stored one under that id and the store
    keeps its size. *)
Theorem createRecipe_replaces_on_id_collision :
  ∀ (Rng : Type) (uuidv4 : Rng → string * Rng) (requesterId : string)
    (payload : RecipePayload) (recipeStorage : Storage) (rng : Rng) (old : Recipe),
    complete payload →
    recipeStorage !! (uuidv4 rng).1 = Some old →
    (∃ recipe rng',
       RevA.createRecipe (JS.returning uuidv4) payload recipeStorage rng
       = (Ok recipe, <[(uuidv4 rng).1 := recipe]> recipeStorage, rng')
       ∧ madeFrom payload recipe
       ∧ size (<[(uuidv4 rng).1 := recipe]> recipeStorage) = size recipeStorage)
    ∧ (∃ recipe rng',
         RevB.createRecipe (JS.returning uuidv4) requesterId payload recipeStorage rng
         = (Ok recipe, <[(uuidv4 rng).1 := recipe]> recipeStorage, rng')
         ∧ madeFrom payload recipe
         ∧ recipe.(Recipe.ownerId) = requesterId
         ∧ size (<[(uuidv4 rng).1 := recipe]> recipeStorage) = size recipeStorage).
Proof.
  intros Rng uuidv4 who payload m rng old C L.
  assert (∀ recipe : Recipe, size (<[(uuidv4 rng).1 := recipe]> m) = size m) as Sz.
  { intros recipe. rewrite <- (insert_delete_id m _ old L) at 2.
    rewrite <- (insert_delete_eq m).
    rewrite !map_size_insert_None; [done|apply lookup_delete_eq..]. }
  split.
  - destruct (RevA_createRecipe_complete uuidv4 payload m rng C)
      as (recipe & E & F & I & _).
    rewrite I in E. by eexists recipe, _.
  - destruct (RevB_createRecipe_complete uuidv4 who payload m rng C)
      as (recipe & E & F & I & O).
    rewrite I in E. by eexists recipe, _.
Qed.

Lemma createRecipe_replaces_on_id_collision_witness :
  complete banitsaLowerPayload
  ∧ banitsaStore !! (alternatingUuidv4 true).1 = Some banitsa
  ∧ ∃ recipe rng',
      RevA.createRecipe (JS.returning alternatingUuidv4) banitsaLowerPayload banitsaStore true
      = (Ok recipe, <[banitsaId := recipe]> banitsaStore, rng')
      ∧ recipe.(Recipe.recipeName) = "banitsa"
      ∧ size (<[banitsaId := recipe]> banitsaStore) = size banitsaStore.
Proof.
  assert (complete banitsaLowerPayload) as C by (by repeat split).
  split; [exact C|]. split; [exact banitsaStore_lookup|].
  destruct (proj1 (createRecipe_replaces_on_id_collision bool alternatingUuidv4
                     mariaId banitsaLowerPayload banitsaStore true banitsa C
                     banitsaStore_lookup))
    as (recipe & rng' & E & (N & _) & Sz).
  exists recipe, rng'. split; [exact E|]. split; [exact N|exact Sz].
Defined.

(** X16: in revision B only [getRecipeById] is an owner-only read.  A
    requester who is not the owner of a stored record is refused by
    [getRecipeById] with the unauthorized message, yet gets the very record
    from [getAllRecipes], from [getRecipeByName] and [getRecipesByType] asked
    for its name and type, and from [getRecipesByOwnersName] asked for its
    owner name.  [getOwnersRecipesById] asked for its owner id returns it too
    when that owner id is UUID-shaped, and answers with the invalid-owner-id
    message when it is not. *)
Theorem RevB_lists_disclose_what_getRecipeById_refuses :
  ∀ (unicodeLower : string → string) (recipeStorage : Storage)
    (recipeId requesterId : string) (recipe : Recipe),
    recipeStorage !! recipeId = Some recipe →
    uuidShape recipeId →
    requesterId ≠ recipe.(Recipe.ownerId) →
    RevB.getRecipeById recipeId requesterId recipeStorage
    = Err "Unauthorized to access this recipe."
    ∧ (∃ result, RevB.getAllRecipes recipeStorage = Ok result ∧ recipe ∈ result)
    ∧ (∃ result,
         RevB.getRecipeByName unicodeLower recipe.(Recipe.recipeName) recipeStorage
         = Ok result
         ∧ recipe ∈ result)
    ∧ (∃ result,
         RevB.getRecipesByType unicodeLower recipe.(Recipe.recipeType) recipeStorage
         = Ok result
         ∧ recipe ∈ result)
    ∧ (∃ result,
         RevB.getRecipesByOwnersName recipe.(Recipe.ownerName) requesterId recipeStorage
         = Ok result
         ∧ recipe ∈ result)
    ∧ (uuidShape recipe.(Recipe.ownerId) →
       ∃ result,
         RevB.getOwnersRecipesById recipe.(Recipe.ownerId) requesterId recipeStorage
         = Ok result
         ∧ recipe ∈ result)
    ∧ (¬ uuidShape recipe.(Recipe.ownerId) →
       RevB.getOwnersRecipesById recipe.(Recipe.ownerId) requesterId recipeStorage
       = Err "Invalid owner ID").
Proof.
  intros unicodeLower m k who recipe L S N.
  assert (stored m recipe) as Hs by (by exists k).
  split_and!.
  - unfold RevB.getRecipeById, StableBTreeMap.get.
    rewrite (RevB_valid _ S), L. simpl. rewrite string_eqb_false; [done|congruence].
  - unfold RevB.getAllRecipes. exists (StableBTreeMap.values m).
    destruct (length _ =? 0) eqn:E.
    + apply values_length_0 in E. rewrite E in L. by rewrite lookup_empty in L.
    + split; [done|]. by apply values_stored.
  - unfold RevB.getRecipeByName. eexists.
    rewrite (scan_some _ m recipe); [|done..]. split; [reflexivity|].
    by apply scan_elem_of.
  - unfold RevB.getRecipesByType. eexists.
    rewrite (scan_some _ m recipe); [|done..]. split; [reflexivity|].
    by apply scan_elem_of.
  - unfold RevB.getRecipesByOwnersName. eexists.
    rewrite (scan_some _ m recipe); [|done..]. split; [reflexivity|].
    by apply scan_elem_of.
  - intros So. unfold RevB.getOwnersRecipesById. rewrite (RevB_valid _ So). simpl.
    eexists. rewrite (scan_some _ m recipe); [|done..]. split; [reflexivity|].
    by apply scan_elem_of.
  - intros No. unfold RevB.getOwnersRecipesById.
    by rewrite (proj2 (RevB_isValidUUID_false _) No).
Qed.

Lemma RevB_lists_disclose_what_getRecipeById_refuses_witness :
  banitsaStore !! banitsaId = Some banitsa
  ∧ uuidShape banitsaId
  ∧ ivanId ≠ banitsa.(Recipe.ownerId)
  ∧ RevB.getRecipeById banitsaId ivanId banitsaStore
    = Err "Unauthorized to access this recipe."
  ∧ (∃ result, RevB.getAllRecipes banitsaStore = Ok result ∧ banitsa ∈ result)
  ∧ ∃ result,
      RevB.getOwnersRecipesById mariaId ivanId banitsaStore = Ok result
      ∧ banitsa ∈ result.
Proof.
  assert (uuidShape banitsaId) as S by (by apply uuidShape_of_test).
  assert (ivanId ≠ banitsa.(Recipe.ownerId)) as N by (intros [=]).
  split; [exact banitsaStore_lookup|]. split; [exact S|]. split; [exact N|].
  destruct (RevB_lists_disclose_what_getRecipeById_refuses noCaseTables banitsaStore
              banitsaId ivanId banitsa banitsaStore_lookup S N)
    as (G & A & _ & _ & _ & O & _).
  split; [exact G|]. split; [exact A|].
  exact (O (banitsaStore_owners _ _ banitsaStore_lookup)).
Defined.

(** X17: whoever created a record can update it and read the update back.  In
    revision A the creator passes the [ownerId] that [createRecipe] returned,
    in revision B the requester id used at creation: [updateRecipe] on the new
    record's id succeeds for any payload, and [getRecipeById] then returns the
    updated record. *)
Theorem creator_can_update_and_read_back :
  ∀ (Rng : Type) (uuidv4 : Rng → string * Rng),
    givesUuids uuidv4 →
    ∀ (requesterId : string) (payload changes : RecipePayload)
      (recipeStorage : Storage) (rng : Rng),
      complete payload →
      (∃ created recipeStorage1 rng1 updated recipeStorage2,
         RevA.createRecipe (JS.returning uuidv4) payload recipeStorage rng
         = (Ok created, recipeStorage1, rng1)
         ∧ RevA.updateRecipe created.(Recipe.id) created.(Recipe.ownerId) changes
             recipeStorage1
           = (Ok updated, recipeStorage2)
         ∧ updatedFrom changes created updated
         ∧ RevA.getRecipeById created.(Recipe.id) recipeStorage2 = Ok updated)
      ∧ (∃ created recipeStorage1 rng1 updated recipeStorage2,
           RevB.createRecipe (JS.returning uuidv4) requesterId payload recipeStorage rng
           = (Ok created, recipeStorage1, rng1)
           ∧ RevB.updateRecipe created.(Recipe.id) requesterId changes recipeStorage1
             = (Ok updated, recipeStorage2)
           ∧ updatedFrom changes created updated
           ∧ RevB.getRecipeById created.(Recipe.id) requesterId recipeStorage2
             = Ok updated).
Proof.
  intros Rng uuidv4 U who payload changes m rng C. split.
  - destruct (RevA_createRecipe_complete uuidv4 payload m rng C)
      as (created & E & _ & I & O).
    assert (uuidShape (Recipe.id created)) as Si by (rewrite I; apply U).
    assert (uuidShape (Recipe.ownerId created)) as So by (rewrite O; apply U).
    destruct (RevA_updateRecipe_owner (<[Recipe.id created := created]> m)
                (Recipe.id created) created changes (lookup_insert_eq _ _ _) Si So)
      as (updated & E2 & F).
    eexists created, _, _, updated, _. split; [exact E|]. split; [exact E2|].
    split; [exact F|]. unfold RevA.getRecipeById, StableBTreeMap.get.
    by rewrite (RevA_valid _ Si), lookup_insert_eq.
  - destruct (RevB_createRecipe_complete uuidv4 who payload m rng C)
      as (created & E & _ & I & O).
    assert (uuidShape (Recipe.id created)) as Si by (rewrite I; apply U).
    destruct (RevB_updateRecipe_owner (<[Recipe.id created := created]> m)
                (Recipe.id created) created changes (lookup_insert_eq _ _ _) Si)
      as (updated & E2 & F).
    rewrite O in E2.
    eexists created, _, _, updated, _. split; [exact E|]. split; [exact E2|].
    split; [exact F|]. unfold RevB.getRecipeById, StableBTreeMap.get.
    rewrite (RevB_valid _ Si), lookup_insert_eq. simpl.
    destruct F as (_ & _ & _ & _ & _ & _ & ->). by rewrite O, string_eqb_refl.
Qed.

Lemma creator_can_update_and_read_back_witness :
  givesUuids alternatingUuidv4 ∧ complete banitsaPayload
  ∧ ∃ created recipeStorage1 rng1 updated recipeStorage2,
      RevA.createRecipe (JS.returning alternatingUuidv4) banitsaPayload ∅ true
      = (Ok created, recipeStorage1, rng1)
      ∧ RevA.updateRecipe created.(Recipe.id) created.(Recipe.ownerId) renamePayload
          recipeStorage1
        = (Ok updated, recipeStorage2)
      ∧ updated.(Recipe.recipeName) = "Banitsa with spinach"
      ∧ RevA.getRecipeById created.(Recipe.id) recipeStorage2 = Ok updated.
Proof.
  split; [exact alternatingUuidv4_shape|]. split; [exact banitsaPayload_complete|].
  destruct (proj1 (creator_can_update_and_read_back bool alternatingUuidv4
                     alternatingUuidv4_shape mariaId banitsaPayload renamePayload ∅ true
                     banitsaPayload_complete))
    as (created & m1 & rng1 & updated & m2 & E & E2 & ([N _] & _) & G).
  exists created, m1, rng1, updated, m2.
  split; [exact E|]. split; [exact E2|]. split; [|exact G].
  apply N. discriminate.
Defined.

(** X18: the letter case of the query never matters to the name and type
    lookups.  Two queries that differ only in the case of ASCII letters get
    the same answer from revision A's [getRecipeByName] and [getRecipesByType], and the
    same [Ok] lists from revision B's (whose empty-result message quotes the
    query as it was typed). *)
Theorem query_case_does_not_matter :
  ∀ (unicodeLower : string → string) (query query' : string)
    (recipeStorage : Storage),
    sameUpToCase query query' →
    RevA.getRecipeByName unicodeLower query recipeStorage
    = RevA.getRecipeByName unicodeLower query' recipeStorage
    ∧ RevA.getRecipesByType unicodeLower query recipeStorage
      = RevA.getRecipesByType unicodeLower query' recipeStorage
    ∧ (∀ result,
         RevB.getRecipeByName unicodeLower query recipeStorage = Ok result
         ↔ RevB.getRecipeByName unicodeLower query' recipeStorage = Ok result)
    ∧ (∀ result,
         RevB.getRecipesByType unicodeLower query recipeStorage = Ok result
         ↔ RevB.getRecipesByType unicodeLower query' recipeStorage = Ok result).
Proof.
  intros unicodeLower q q' m H.
  apply (sameUpToCase_equalIgnoringCase unicodeLower) in H.
  unfold equalIgnoringCase in H.
  unfold RevA.getRecipeByName, RevA.getRecipesByType,
    RevB.getRecipeByName, RevB.getRecipesByType.
  rewrite H. split_and!; try done.
  - intros result. by destruct (length _ =? 0).
  - intros result. by destruct (length _ =? 0).
Qed.

Lemma query_case_does_not_matter_witness :
  sameUpToCase "BANITSA" "banitsa"
  ∧ RevA.getRecipeByName noCaseTables "BANITSA" twoRecipes
    = RevA.getRecipeByName noCaseTables "banitsa" twoRecipes.
Proof.
  assert (sameUpToCase "BANITSA" "banitsa") as H by (by apply asciiLower_eq).
  split; [exact H|].
  exact (proj1 (query_case_does_not_matter noCaseTables "BANITSA" "banitsa" twoRecipes H)).
Defined.

(** ** Which failure a write reports *)

(** X19: the failures of [updateRecipe] and [deleteRecipe] come in a fixed
    order and leave the store alone.  The format check comes first: a record
    id that is not UUID-shaped (in revision A also an identity that is not
    UUID-shaped, even when the record id is fine and nothing is stored under
    it) gets the invalid-id message.  Past the format check, an id under which
    nothing is stored gets the not-found message that quotes the id. *)
Theorem write_failures :
  ∀ (recipeId identity : string) (payload : RecipePayload) (recipeStorage : Storage),
    (¬ uuidShape recipeId ∨ ¬ uuidShape identity →
     RevA.updateRecipe recipeId identity payload recipeStorage
     = (Err "Invalid recipe or owner ID for updating the recipe.", recipeStorage)
     ∧ RevA.deleteRecipe recipeId identity recipeStorage
       = (Err "Invalid recipe or owner ID for deleting an Recipe.", recipeStorage))
    ∧ (¬ uuidShape recipeId →
       RevB.updateRecipe recipeId identity payload recipeStorage
       = (Err "Invalid recipe ID for updating the recipe.", recipeStorage)
       ∧ RevB.deleteRecipe recipeId identity recipeStorage
         = (Err "Invalid recipe ID for deleting a recipe.", recipeStorage))
    ∧ (uuidShape recipeId ∧ recipeStorage !! recipeId = None →
       RevB.updateRecipe recipeId identity payload recipeStorage
       = (Err ("Failed to update recipe with id: " +:+ recipeId +:+ "!"), recipeStorage)
       ∧ RevB.deleteRecipe recipeId identity recipeStorage
         = (Err ("Failed to delete recipe with id: " +:+ recipeId), recipeStorage)
       ∧ (uuidShape identity →
          RevA.updateRecipe recipeId identity payload recipeStorage
          = (Err ("Failed to update recipe with id: " +:+ recipeId +:+ "!"),
             recipeStorage)
          ∧ RevA.deleteRecipe recipeId identity recipeStorage
            = (Err ("Failed to delete recipe with id: " +:+ recipeId), recipeStorage))).
Proof.
  intros k who payload m. split_and!.
  - intros N.
    assert (negb (RevA.isValidUUID k) || negb (RevA.isValidUUID who) = true) as V.
    { destruct N as [N|N]; apply RevA_isValidUUID_false in N; rewrite N;
        [done|apply orb_true_r]. }
    unfold RevA.updateRecipe, RevA.deleteRecipe. by rewrite V.
  - intros N%RevB_isValidUUID_false.
    unfold RevB.updateRecipe, RevB.deleteRecipe. by rewrite N.
  - intros [S L]. split_and!.
    + unfold RevB.updateRecipe, StableBTreeMap.get. by rewrite (RevB_valid _ S), L.
    + by rewrite RevB_deleteRecipe_cases, (RevB_valid _ S), L.
    + intros Sw. split.
      * unfold RevA.updateRecipe, StableBTreeMap.get.
        by rewrite (RevA_valid _ S), (RevA_valid _ Sw), L.
      * rewrite RevA_deleteRecipe_cases, (RevA_valid _ S), (RevA_valid _ Sw), L.
        simpl. by rewrite delete_id.
Qed.
